(** * Verification of auxiliary components of the tailscale tree

    The development embeds, as executable Rocq definitions, the following
    pieces of the repository and proves properties about them:

    - [shared]        URL path helpers (package tailfs/.../shared):
                      [CleanAndSplit], [Join], [IsRoot];
    - [containerboot] the container entry point (cmd/containerboot/main.go):
                      [settings], [validate], [tailscaledArgs], [defaultBool];
    - [webdavfs]      the WebDAV stat cache
                      (tailfs/tailfsimpl/webdavfs/stat_cache.go);
    - [operator]      the Kubernetes Service reconciler (cmd/k8s-operator):
                      [Reconcile], [maybeCleanup], [validateService],
                      [maybeProvision], and the handlers that map a child
                      resource to its parent;
    - [v1alpha1]      the routes of a Connector
                      (k8s-operator/apis/v1alpha1/types_connector.go).

    Go strings are byte strings: they are modelled by [string], and by
    [list ascii] wherever the code walks over the bytes. *)

From Stdlib Require Import Ascii String List Bool Arith Lia ZArith.
From stdpp Require Import base gmap strings list.

Local Open Scope list_scope.

(** ** Go byte strings *)

Module GoString.

Definition bytes (s : string) : list ascii := list_ascii_of_string s.
Definition of_bytes (l : list ascii) : string := string_of_list_ascii l.

(** [s == ""] / [len(s) == 0] *)
Definition is_empty (s : string) : bool :=
  match s with EmptyString => true | String _ _ => false end.

Definition byte_in (c : ascii) (set : list ascii) : bool :=
  existsb (Ascii.eqb c) set.

End GoString.

(** ** Package [strings] of the Go standard library (the functions used) *)

Module Strings.
Import GoString.

(** [trimLeftASCII]: [for len(s) > 0 { if !as.contains(s[0]) { break }; s = s[1:] }] *)
Fixpoint trimLeftASCII (s : list ascii) (cutset : list ascii) : list ascii :=
  match s with
  | [] => []
  | c :: s' => if byte_in c cutset then trimLeftASCII s' cutset else s
  end.

(** [trimRightASCII]: the same scan from the last byte downwards. *)
Definition trimRightASCII (s : list ascii) (cutset : list ascii) : list ascii :=
  rev (trimLeftASCII (rev s) cutset).

(** [strings.Trim(s, cutset)] for a cutset of ASCII bytes:
    [trimLeftASCII(trimRightASCII(s, &as), &as)]. *)
Definition TrimBytes (s cutset : list ascii) : list ascii :=
  match s, cutset with
  | [], _ => s
  | _, [] => s
  | _, _ => trimLeftASCII (trimRightASCII s cutset) cutset
  end.

Definition Trim (s cutset : string) : string :=
  of_bytes (TrimBytes (bytes s) (bytes cutset)).

(** [strings.Split(s, sep)] for a separator of one byte: the pieces of [s]
    between consecutive occurrences of [sep]; [genSplit] cuts at the first
    occurrence and goes on with the remainder, the last piece being what is
    left. *)
Fixpoint SplitByte (s : list ascii) (sep : ascii) : list (list ascii) :=
  match s with
  | [] => [[]]
  | c :: s' =>
      if Ascii.eqb c sep then [] :: SplitByte s' sep
      else match SplitByte s' sep with
           | piece :: pieces => (c :: piece) :: pieces
           | [] => [[c]]
           end
  end.

Definition Split (s : string) (sep : ascii) : list string :=
  map of_bytes (SplitByte (bytes s) sep).

(** [strings.Join(elems, sep)] *)
Fixpoint Join (elems : list string) (sep : string) : string :=
  match elems with
  | [] => ""
  | [e] => e
  | e :: elems' => e +:+ sep +:+ Join elems' sep
  end.

(** [strings.HasPrefix] on bytes, and [strings.HasSuffix]. *)
Fixpoint HasPrefixBytes (s prefix : list ascii) : bool :=
  match prefix, s with
  | [], _ => true
  | _ :: _, [] => false
  | p :: prefix', c :: s' => Ascii.eqb c p && HasPrefixBytes s' prefix'
  end.

Definition HasSuffix (s suffix : string) : bool :=
  HasPrefixBytes (rev (bytes s)) (rev (bytes suffix)).

End Strings.

(** ** Package [path] of the Go standard library: [Clean] and [Join] *)

Module Path.
Import GoString.

Definition isSlash (c : ascii) : bool := Ascii.eqb c "/".
Definition isDot (c : ascii) : bool := Ascii.eqb c ".".

(** The output buffer [lazybuf] of [Clean] is modelled by the bytes
    [buf[0:w]] it holds, kept in reverse (last written byte first), so that
    [out.append(c)] is a cons and [out.w--] drops the head. *)

(** The backtracking of a [..] element, entered after the first [out.w--]:
    [for out.w > dotdot && out.index(out.w) != '/' { out.w-- }].
    [last] is [out.index(out.w)], the byte dropped last. *)
Fixpoint backtrack (dotdot : nat) (last : ascii) (rout : list ascii) : list ascii :=
  match rout with
  | [] => []
  | c :: rout' =>
      if (dotdot <? length rout) && negb (isSlash last)
      then backtrack dotdot c rout'
      else rout
  end.

(** [for ; r < n && path[r] != '/'; r++ { out.append(path[r]) }];
    returns what is left of the path and the buffer. *)
Fixpoint copyElem (rest rout : list ascii) : list ascii * list ascii :=
  match rest with
  | [] => ([], rout)
  | c :: rest' => if isSlash c then (rest, rout) else copyElem rest' (c :: rout)
  end.

(** [path[r+1:]] is at its end or starts with a slash:
    [r+1 == n || path[r+1] == '/']. *)
Definition endsElem (rest : list ascii) : bool :=
  match rest with
  | [] => true
  | c :: _ => isSlash c
  end.

(** The main loop [for r < n { switch ... }] of [Clean]. [rest] is
    [path[r:]]; every iteration consumes at least one byte, so [fuel]
    bounds the number of iterations by the number of bytes left. *)
Fixpoint cleanLoop (fuel : nat) (rooted : bool) (rest rout : list ascii)
    (dotdot : nat) : list ascii :=
  match fuel with
  | 0 => rout
  | S fuel' =>
      match rest with
      | [] => rout
      | c :: rest1 =>
          if isSlash c then
            (* empty path element *)
            cleanLoop fuel' rooted rest1 rout dotdot
          else if isDot c && endsElem rest1 then
            (* . element *)
            cleanLoop fuel' rooted rest1 rout dotdot
          else if isDot c && match rest1 with
                             | c1 :: rest2 => isDot c1 && endsElem rest2
                             | [] => false
                             end then
            (* .. element: remove to last / *)
            let rest2 := tl rest1 in
            if dotdot <? length rout then
              (* can backtrack *)
              cleanLoop fuel' rooted rest2
                match rout with
                | last :: rout' => backtrack dotdot last rout'
                | [] => []
                end dotdot
            else if negb rooted then
              (* cannot backtrack, but not rooted, so append .. element *)
              let rout1 := if 0 <? length rout then "/"%char :: rout else rout in
              let rout2 := "."%char :: "."%char :: rout1 in
              cleanLoop fuel' rooted rest2 rout2 (length rout2)
            else
              cleanLoop fuel' rooted rest2 rout dotdot
          else
            (* real path element: add slash if needed, copy element *)
            let rout1 :=
              if (rooted && negb (length rout =? 1))
                 || (negb rooted && negb (length rout =? 0))
              then "/"%char :: rout else rout in
            let '(rest', rout2) := copyElem rest rout1 in
            cleanLoop fuel' rooted rest' rout2 dotdot
      end
  end.

(** [path.Clean] on bytes. *)
Definition CleanBytes (path : list ascii) : list ascii :=
  match path with
  | [] => ["."%char]
  | c0 :: path1 =>
      let rooted := isSlash c0 in
      let n := length path in
      let out :=
        if rooted then cleanLoop n rooted path1 ["/"%char] 1
        else cleanLoop n rooted path [] 0 in
      (* Turn empty string into "." *)
      if length out =? 0 then ["."%char] else rev out
  end.

Definition Clean (path : string) : string := of_bytes (CleanBytes (bytes path)).

(** The invariant of the loop on a rooted path: the buffer holds the
    leading slash, its first byte. *)
Definition holdsRoot (rout : list ascii) : Prop := ∃ l, rout = l ++ ["/"%char].

(** The loop of [path.Join] that builds [buf]:
    [if len(buf) > 0 || e != "" { if len(buf) > 0 { buf = append(buf, '/') };
      buf = append(buf, e...) }]. *)
Fixpoint joinLoop (elem : list string) (buf : list ascii) : list ascii :=
  match elem with
  | [] => buf
  | e :: elem' =>
      if (0 <? length buf) || negb (is_empty e) then
        let buf1 := if 0 <? length buf then buf ++ ["/"%char] else buf in
        joinLoop elem' (buf1 ++ bytes e)
      else joinLoop elem' buf
  end.

(** [path.Join]. *)
Definition Join (elem : list string) : string :=
  let size := fold_left (fun size e => size + String.length e) elem 0 in
  if size =? 0 then ""
  else of_bytes (CleanBytes (joinLoop elem [])).

End Path.

(** ** Package [shared]: URL path helpers *)

Module shared.

Definition sepString : string := "/".
Definition sepStringAndDot : string := "/.".
Definition sep : ascii := "/"%char.

(** [strings.Split(strings.Trim(path.Clean(p), sepStringAndDot), sepString)] *)
Definition CleanAndSplit (p : string) : list string :=
  Strings.Split (Strings.Trim (Path.Clean p) sepStringAndDot) sep.

(** [Join]: [fullParts] starts as [[sepString]], every part is appended to
    it in a loop, and [path.Join] is called on the result. *)
Definition Join (parts : list string) : string :=
  let fullParts := [sepString] in
  let fullParts := fold_left (fun fullParts part => fullParts ++ [part]) parts fullParts in
  Path.Join fullParts.

Definition IsRoot (p : string) : bool :=
  String.eqb p "" || String.eqb p sepString.

End shared.

(** Predicates used to state properties of path elements. *)

Module PathElem.
Import GoString.

(** The first byte of [s] is [c]. *)
Definition startsWith (s : string) (c : ascii) : bool :=
  match bytes s with
  | c' :: _ => Ascii.eqb c' c
  | [] => false
  end.

(** The last byte of [s] is [c]. *)
Definition endsWith (s : string) (c : ascii) : bool :=
  match rev (bytes s) with
  | c' :: _ => Ascii.eqb c' c
  | [] => false
  end.

End PathElem.

(** ** Go errors and process exit *)

Module GoError.

(** A Go [error] value that is not nil. [E] is the type of the errors that
    come from outside the modelled code (system calls, the Kubernetes
    client, a fetch callback). A value of type [option (error E)] is a Go
    [error], [None] being nil. *)
Inductive error (E : Type) : Type :=
| External (e : E)
| New (msg : string)                        (* errors.New(msg) *)
| Wrap (format : string) (args : list string) (err : error E)
    (* fmt.Errorf(format, args..., err): %w for err, %s for the args *)
| NumError (func num : string).             (* strconv's syntax error *)

Arguments External {E} e.
Arguments New {E} msg.
Arguments Wrap {E} format args err.
Arguments NumError {E} func num.

(** What a call yields: it returns, or the process exits in
    [log.Fatalf(format, err)]. *)
Inductive outcome (E A : Type) : Type :=
| Returns (a : A)
| Fatalf (format : string) (err : error E).

Arguments Returns {E A} a.
Arguments Fatalf {E A} format err.

End GoError.

(** ** Package [strconv]: [ParseBool] *)

Module Strconv.
Import GoError.

Definition ParseBool {E} (str : string) : bool * option (error E) :=
  if bool_decide (str ∈ ["1"; "t"; "T"; "TRUE"; "true"; "True"]) then (true, None)
  else if bool_decide (str ∈ ["0"; "f"; "F"; "FALSE"; "false"; "False"]) then (false, None)
  else (false, Some (NumError "ParseBool" str)).

End Strconv.

(** ** cmd/containerboot *)

Module containerboot.
Import GoString GoError.

(** [settings] is all the configuration for containerboot. The pointer
    fields [Routes] and [AcceptDNS] are options, [None] being nil. *)
Record settings : Type := mkSettings {
  AuthKey : string;
  Hostname : string;
  Routes : option string;
  ProxyTo : string;
  TailnetTargetIP : string;
  TailnetTargetFQDN : string;
  ServeConfigPath : string;
  DaemonExtraArgs : string;
  ExtraArgs : string;
  InKubernetes : bool;
  UserspaceMode : bool;
  StateDir : string;
  AcceptDNS : option bool;
  KubeSecret : string;
  SOCKSProxyAddr : string;
  HTTPProxyAddr : string;
  Socket : string;
  AuthOnce : bool;
  Root : string;
  KubernetesCanPatch : bool;
  TailscaledConfigFilePath : string;
  AllowProxyingClusterTrafficViaIngress : bool;
  PodIP : string
}.

(** [cfg.StateDir = dir] *)
Definition setStateDir (cfg : settings) (dir : string) : settings :=
  {| AuthKey := AuthKey cfg; Hostname := Hostname cfg; Routes := Routes cfg;
     ProxyTo := ProxyTo cfg; TailnetTargetIP := TailnetTargetIP cfg;
     TailnetTargetFQDN := TailnetTargetFQDN cfg;
     ServeConfigPath := ServeConfigPath cfg;
     DaemonExtraArgs := DaemonExtraArgs cfg; ExtraArgs := ExtraArgs cfg;
     InKubernetes := InKubernetes cfg; UserspaceMode := UserspaceMode cfg;
     StateDir := dir;
     AcceptDNS := AcceptDNS cfg; KubeSecret := KubeSecret cfg;
     SOCKSProxyAddr := SOCKSProxyAddr cfg; HTTPProxyAddr := HTTPProxyAddr cfg;
     Socket := Socket cfg; AuthOnce := AuthOnce cfg; Root := Root cfg;
     KubernetesCanPatch := KubernetesCanPatch cfg;
     TailscaledConfigFilePath := TailscaledConfigFilePath cfg;
     AllowProxyingClusterTrafficViaIngress := AllowProxyingClusterTrafficViaIngress cfg;
     PodIP := PodIP cfg |}.

(** [s != ""] *)
Definition nonEmpty (s : string) : bool := negb (is_empty s).

(** *** Reading the environment *)

Section Environment.
Context {E : Type}.

(** The process environment: the variables that are set, with their
    values. *)
Variable env : gmap string string.

(** [os.LookupEnv] *)
Definition LookupEnv (name : string) : string * bool :=
  match env !! name with
  | Some v => (v, true)
  | None => ("", false)
  end.

(** [os.Getenv] *)
Definition Getenv (name : string) : string := fst (LookupEnv name).

Definition defaultEnv (name defVal : string) : string :=
  let '(v, ok) := LookupEnv name in
  if ok then v else defVal.

Definition defaultEnvStringPointer (name : string) : option string :=
  let '(v, ok) := LookupEnv name in
  if ok then Some v else None.

Definition defaultEnvBoolPointer (name : string) : option bool :=
  let v := Getenv name in
  match Strconv.ParseBool (E:=E) v with
  | (_, Some _) => None
  | (ret, None) => Some ret
  end.

Fixpoint defaultEnvs (names : list string) (defVal : string) : string :=
  match names with
  | [] => defVal
  | name :: names' =>
      let '(v, ok) := LookupEnv name in
      if ok then v else defaultEnvs names' defVal
  end.

(** [defaultBool] returns the boolean value of the given envvar name, or
    [defVal] if unset or not a bool. *)
Definition defaultBool (name : string) (defVal : bool) : bool :=
  let v := Getenv name in
  match Strconv.ParseBool (E:=E) v with
  | (_, Some _) => defVal
  | (ret, None) => ret
  end.

(** The [settings] literal that [main] builds from the environment.
    [KubernetesCanPatch] is not in the literal: it has its zero value. *)
Definition mainSettings : settings :=
  {| AuthKey := defaultEnvs ["TS_AUTHKEY"; "TS_AUTH_KEY"] "";
     Hostname := defaultEnv "TS_HOSTNAME" "";
     Routes := defaultEnvStringPointer "TS_ROUTES";
     ServeConfigPath := defaultEnv "TS_SERVE_CONFIG" "";
     ProxyTo := defaultEnv "TS_DEST_IP" "";
     TailnetTargetIP := defaultEnv "TS_TAILNET_TARGET_IP" "";
     TailnetTargetFQDN := defaultEnv "TS_TAILNET_TARGET_FQDN" "";
     DaemonExtraArgs := defaultEnv "TS_TAILSCALED_EXTRA_ARGS" "";
     ExtraArgs := defaultEnv "TS_EXTRA_ARGS" "";
     InKubernetes := nonEmpty (Getenv "KUBERNETES_SERVICE_HOST");
     UserspaceMode := defaultBool "TS_USERSPACE" true;
     StateDir := defaultEnv "TS_STATE_DIR" "";
     AcceptDNS := defaultEnvBoolPointer "TS_ACCEPT_DNS";
     KubeSecret := defaultEnv "TS_KUBE_SECRET" "tailscale";
     SOCKSProxyAddr := defaultEnv "TS_SOCKS5_SERVER" "";
     HTTPProxyAddr := defaultEnv "TS_OUTBOUND_HTTP_PROXY_LISTEN" "";
     Socket := defaultEnv "TS_SOCKET" "/tmp/tailscaled.sock";
     AuthOnce := defaultBool "TS_AUTH_ONCE" false;
     Root := defaultEnv "TS_TEST_ONLY_ROOT" "/";
     KubernetesCanPatch := false;
     TailscaledConfigFilePath := defaultEnv "EXPERIMENTAL_TS_CONFIGFILE_PATH" "";
     AllowProxyingClusterTrafficViaIngress :=
       defaultBool "EXPERIMENTAL_ALLOW_PROXYING_CLUSTER_TRAFFIC_VIA_INGRESS" false;
     PodIP := defaultEnv "POD_IP" "" |}.

End Environment.

(** *** Validation of the settings *)

Section Validate.
Context {E : Type}.

(** The error of [conffile.Load(path)] (package ipn/conffile reads and
    parses the file): nil when the file loads. *)
Variable conffileLoad : string → option (error E).

Definition validate (s : settings) : option (error E) :=
  match (if nonEmpty (TailscaledConfigFilePath s)
         then conffileLoad (TailscaledConfigFilePath s) else None) with
  | Some err => Some (Wrap "error validating tailscaled configfile contents: %w" [] err)
  | None =>
    if nonEmpty (ProxyTo s) && UserspaceMode s then
      Some (New "TS_DEST_IP is not supported with TS_USERSPACE")
    else if nonEmpty (TailnetTargetIP s) && UserspaceMode s then
      Some (New "TS_TAILNET_TARGET_IP is not supported with TS_USERSPACE")
    else if nonEmpty (TailnetTargetFQDN s) && UserspaceMode s then
      Some (New "TS_TAILNET_TARGET_FQDN is not supported with TS_USERSPACE")
    else if nonEmpty (TailnetTargetFQDN s) && nonEmpty (TailnetTargetIP s) then
      Some (New "Both TS_TAILNET_TARGET_IP and TS_TAILNET_FQDN cannot be set")
    else if nonEmpty (TailscaledConfigFilePath s)
            && (bool_decide (AcceptDNS s ≠ None) || nonEmpty (AuthKey s)
                || bool_decide (Routes s ≠ None) || nonEmpty (ExtraArgs s)
                || nonEmpty (Hostname s)) then
      Some (New "EXPERIMENTAL_TS_CONFIGFILE_PATH cannot be set in combination with TS_HOSTNAME, TS_EXTRA_ARGS, TS_AUTHKEY, TS_ROUTES, TS_ACCEPT_DNS.")
    else if AllowProxyingClusterTrafficViaIngress s && UserspaceMode s then
      Some (New "EXPERIMENTAL_ALLOW_PROXYING_CLUSTER_TRAFFIC_VIA_INGRESS is not supported in userspace mode")
    else if AllowProxyingClusterTrafficViaIngress s && is_empty (ServeConfigPath s) then
      Some (New "EXPERIMENTAL_ALLOW_PROXYING_CLUSTER_TRAFFIC_VIA_INGRESS is set but this is not a cluster ingress proxy")
    else if AllowProxyingClusterTrafficViaIngress s && is_empty (PodIP s) then
      Some (New "EXPERIMENTAL_ALLOW_PROXYING_CLUSTER_TRAFFIC_VIA_INGRESS is set but POD_IP is not set")
    else None
  end.

End Validate.

(** *** Starting tailscaled *)

Section Tailscaled.
Context {E FS : Type}.

(** The file system calls, on a file system state [FS]:
    the error of [os.Stat(name)], [errors.Is(err, fs.ErrNotExist)],
    [os.MkdirAll(name, 0755)] and
    [unix.Mknod(name, 0600|unix.S_IFCHR, unix.Mkdev(10, 200))]. *)
Variable osStat : string → FS → option (error E).
Variable isNotExist : error E → bool.
Variable osMkdirAll : string → FS → option (error E) * FS.
Variable unixMknod : string → FS → option (error E) * FS.

(** [strings.Fields]: the words of a string, split around white space. *)
Variable stringsFields : string → list string.

(** [errors.Is(err, fs.ErrNotExist)] on a Go error (false on nil). *)
Definition errIsNotExist (err : option (error E)) : bool :=
  match err with
  | Some e => isNotExist e
  | None => false
  end.

(** [filepath.Join] on Linux, where it is [path.Join]. *)
Definition filepathJoin (elem : list string) : string := Path.Join elem.

(** [ensureTunFile] checks that /dev/net/tun exists, creating it if
    missing. *)
Definition ensureTunFile (root : string) (fs : FS) : option (error E) * FS :=
  let '(err, fs) :=
    if errIsNotExist (osStat (filepathJoin [root; "dev/net"]) fs)
    then osMkdirAll (filepathJoin [root; "dev/net"]) fs
    else (None, fs) in
  match err with
  | Some err => (Some err, fs)
  | None =>
      if errIsNotExist (osStat (filepathJoin [root; "dev/net/tun"]) fs)
      then unixMknod (filepathJoin [root; "dev/net/tun"]) fs
      else (None, fs)
  end.

(** [tailscaledArgs] uses [cfg] to construct the argv for tailscaled.
    It returns the argv and [cfg] as it leaves it (the argument is a
    pointer), or exits the process. *)
Definition tailscaledArgs (cfg : settings) (fs : FS)
    : outcome E (list string * settings) * FS :=
  let args := ["--socket=" +:+ Socket cfg] in
  let '(args, cfg) :=
    if InKubernetes cfg && nonEmpty (KubeSecret cfg) then
      let args := args ++ ["--state=kube:" +:+ KubeSecret cfg] in
      let cfg := if is_empty (StateDir cfg) then setStateDir cfg "/tmp" else cfg in
      (* fallthrough: the body of the next case, its condition not tested *)
      (args ++ ["--statedir=" +:+ StateDir cfg], cfg)
    else if nonEmpty (StateDir cfg) then
      (args ++ ["--statedir=" +:+ StateDir cfg], cfg)
    else
      (args ++ ["--state=mem:"; "--statedir=/tmp"], cfg) in
  let '(tun, args, fs) :=
    if UserspaceMode cfg then (None, args ++ ["--tun=userspace-networking"], fs)
    else let '(err, fs) := ensureTunFile (Root cfg) fs in (err, args, fs) in
  match tun with
  | Some err => (Fatalf "ensuring that /dev/net/tun exists: %v" err, fs)
  | None =>
      let args := if nonEmpty (SOCKSProxyAddr cfg)
                  then args ++ ["--socks5-server=" +:+ SOCKSProxyAddr cfg] else args in
      let args := if nonEmpty (HTTPProxyAddr cfg)
                  then args ++ ["--outbound-http-proxy-listen=" +:+ HTTPProxyAddr cfg]
                  else args in
      let args := if nonEmpty (TailscaledConfigFilePath cfg)
                  then args ++ ["--config=" +:+ TailscaledConfigFilePath cfg] else args in
      let args := if nonEmpty (DaemonExtraArgs cfg)
                  then args ++ stringsFields (DaemonExtraArgs cfg) else args in
      (Returns (args, cfg), fs)
  end.

End Tailscaled.

(** The state arguments as the specification words them, to be compared
    with what [tailscaledArgs] builds: the arguments that follow
    [--socket=], and the state directory the settings are left with. *)
Definition stateArgsSpec (cfg : settings) : list string :=
  if InKubernetes cfg && nonEmpty (KubeSecret cfg) then
    ["--state=kube:" +:+ KubeSecret cfg;
     "--statedir=" +:+ (if is_empty (StateDir cfg) then "/tmp" else StateDir cfg)]
  else if nonEmpty (StateDir cfg) then
    ["--statedir=" +:+ StateDir cfg]
  else
    ["--state=mem:"; "--statedir=/tmp"].

Definition stateDirSpec (cfg : settings) : string :=
  if InKubernetes cfg && nonEmpty (KubeSecret cfg) && is_empty (StateDir cfg)
  then "/tmp" else StateDir cfg.

(** The arguments that [tailscaledArgs] appends after the state arguments:
    the one of the userspace mode, the two proxy addresses, the config file
    and the words of [cfg.DaemonExtraArgs]. *)
Definition laterArgs (stringsFields : string → list string) (cfg : settings)
    : list string :=
  (if UserspaceMode cfg then ["--tun=userspace-networking"] else [])
  ++ (if nonEmpty (SOCKSProxyAddr cfg)
      then ["--socks5-server=" +:+ SOCKSProxyAddr cfg] else [])
  ++ (if nonEmpty (HTTPProxyAddr cfg)
      then ["--outbound-http-proxy-listen=" +:+ HTTPProxyAddr cfg] else [])
  ++ (if nonEmpty (TailscaledConfigFilePath cfg)
      then ["--config=" +:+ TailscaledConfigFilePath cfg] else [])
  ++ (if nonEmpty (DaemonExtraArgs cfg) then stringsFields (DaemonExtraArgs cfg) else []).

(** *** A container with a read-only root and no /dev/net

    Every [os.Stat] fails with ENOENT, and nothing can be created: the
    file system rejects [os.MkdirAll] and [unix.Mknod] with EROFS. *)

Module ReadOnlyRoot.

Inductive errno : Set := ENOENT | EROFS.

Definition osStat (_ : string) (_ : unit) : option (error errno) :=
  Some (External ENOENT).
Definition isNotExist (err : error errno) : bool :=
  match err with
  | External ENOENT => true
  | _ => false
  end.
Definition osMkdirAll (_ : string) (fs : unit) : option (error errno) * unit :=
  (Some (External EROFS), fs).
Definition unixMknod (_ : string) (fs : unit) : option (error errno) * unit :=
  (Some (External EROFS), fs).
Definition stringsFields (_ : string) : list string := [].

(** The settings [main] builds from an environment that sets only
    [TS_USERSPACE=false]. *)
Definition cfg : settings :=
  mainSettings (E:=errno) {[ "TS_USERSPACE" := "false" ]}.

End ReadOnlyRoot.

(** The settings of a proxy to a cluster IP, run in userspace mode (the
    default). *)
Definition userspaceProxy : settings :=
  mainSettings (E:=Empty_set) {[ "TS_DEST_IP" := "10.0.0.7" ]}.

End containerboot.

(** ** tailfs/tailfsimpl/webdavfs: the stat cache *)

Module webdavfs.
Import GoError.

Section StatCache.
(** [FileInfo] are the values of the interface [fs.FileInfo] (nil among
    them), [E] the errors of the fetch callback and [W] the state of
    whatever the callback works on (the WebDAV server). *)
Context {FileInfo E W : Type}.

(** [statCache]: the items that [ttlcache.Cache.Get] finds, those set
    and not yet expired or deleted. The mutex only serialises the access
    to the cache. *)
Record statCache : Type := mkStatCache {
  cache : gmap string FileInfo
}.

(** [c.cache.Get(name)]: the item, or nil. *)
Definition cacheGet (c : statCache) (name : string) : option FileInfo :=
  cache c !! name.

(** [c.cache.Set(name, fi, ttlcache.DefaultTTL)] *)
Definition cacheSet (c : statCache) (name : string) (fi : FileInfo) : statCache :=
  {| cache := <[name:=fi]> (cache c) |}.

(** [c.cache.DeleteAll()] *)
Definition invalidate (c : statCache) : statCache := {| cache := ∅ |}.

Definition getOrFetch (c : statCache) (name : string)
    (fetch : string → W → (FileInfo * option (error E)) * W) (w : W)
    : (FileInfo * option (error E)) * statCache * W :=
  match cacheGet c name with
  | Some item => ((item, None), c, w)
  | None =>
      let '((fi, err), w) := fetch name w in
      let c := match err with
               | None => cacheSet c name fi
               | Some _ => c
               end in
      ((fi, err), c, w)
  end.

End StatCache.

Arguments statCache : clear implicits.

End webdavfs.

(** ** cmd/k8s-operator: the Service reconciler *)

Module operator.
Import GoString GoError.

(** *** Kubernetes objects *)

(** [corev1.LoadBalancerIngress] *)
Record LoadBalancerIngress : Type := mkIngress {
  IP : string;
  Hostname : string
}.

(** [corev1.Service], with the fields of its metadata, [Spec] and [Status]
    that the reconciler reads or writes. [DeletionTimestamp] is a pointer
    to a time, counted from the zero time; the pointers
    [Spec.LoadBalancerClass] and the map [Spec.Selector] may be nil. A
    [Service] here is always behind a non-nil pointer. *)
Record Service : Type := mkService {
  Name : string;
  Namespace : string;
  UID : string;
  Labels : gmap string string;
  Annotations : gmap string string;
  Finalizers : list string;
  DeletionTimestamp : option Z;
  SpecClusterIP : string;
  SpecType : string;
  SpecLoadBalancerClass : option string;
  SpecExternalName : string;
  SpecSelector : option (gmap string string);
  StatusLoadBalancerIngress : list LoadBalancerIngress
}.

Definition ServiceTypeLoadBalancer : string := "LoadBalancer".
Definition ServiceTypeExternalName : string := "ExternalName".
Definition EventTypeWarning : string := "Warning".

(** [svc.Finalizers = fs] *)
Definition setFinalizers (svc : Service) (fs : list string) : Service :=
  {| Name := Name svc; Namespace := Namespace svc; UID := UID svc;
     Labels := Labels svc; Annotations := Annotations svc;
     Finalizers := fs;
     DeletionTimestamp := DeletionTimestamp svc;
     SpecClusterIP := SpecClusterIP svc; SpecType := SpecType svc;
     SpecLoadBalancerClass := SpecLoadBalancerClass svc;
     SpecExternalName := SpecExternalName svc;
     SpecSelector := SpecSelector svc;
     StatusLoadBalancerIngress := StatusLoadBalancerIngress svc |}.

(** [svc.Spec.ExternalName = name; svc.Spec.Selector = nil;
     svc.Spec.Type = corev1.ServiceTypeExternalName] *)
Definition setExternalName (svc : Service) (name : string) : Service :=
  {| Name := Name svc; Namespace := Namespace svc; UID := UID svc;
     Labels := Labels svc; Annotations := Annotations svc;
     Finalizers := Finalizers svc;
     DeletionTimestamp := DeletionTimestamp svc;
     SpecClusterIP := SpecClusterIP svc; SpecType := ServiceTypeExternalName;
     SpecLoadBalancerClass := SpecLoadBalancerClass svc;
     SpecExternalName := name;
     SpecSelector := None;
     StatusLoadBalancerIngress := StatusLoadBalancerIngress svc |}.

(** [svc.Status.LoadBalancer.Ingress = ingress] *)
Definition setIngress (svc : Service) (ingress : list LoadBalancerIngress) : Service :=
  {| Name := Name svc; Namespace := Namespace svc; UID := UID svc;
     Labels := Labels svc; Annotations := Annotations svc;
     Finalizers := Finalizers svc;
     DeletionTimestamp := DeletionTimestamp svc;
     SpecClusterIP := SpecClusterIP svc; SpecType := SpecType svc;
     SpecLoadBalancerClass := SpecLoadBalancerClass svc;
     SpecExternalName := SpecExternalName svc;
     SpecSelector := SpecSelector svc;
     StatusLoadBalancerIngress := ingress |}.

(** [m[key]] on a Go map of strings: the empty string when absent. *)
Definition index (m : gmap string string) (key : string) : string :=
  default "" (m !! key).

(** [svc.DeletionTimestamp.IsZero()]: nil, or the zero time. *)
Definition IsZero (t : option Z) : bool :=
  match t with
  | None => true
  | Some t => Z.eqb t 0
  end.

(** [types.NamespacedName] *)
Record NamespacedName : Type := mkKey {
  KeyNamespace : string;
  KeyName : string
}.

(** [reconcile.Result] *)
Record Result : Type := mkResult {
  Requeue : bool;
  RequeueAfter : Z
}.

Definition emptyResult : Result := {| Requeue := false; RequeueAfter := 0 |}.

(** [tailscaleSTSConfig], with the fields that [maybeProvision] sets. *)
Record tailscaleSTSConfig : Type := mkSTSConfig {
  ParentResourceName : string;
  ParentResourceUID : string;
  STSHostname : string;
  Tags : list string;
  ChildResourceLabels : gmap string string;
  ProxyClass : string;
  ClusterTargetIP : string;
  TailnetTargetIP : string;
  TailnetTargetFQDN : string
}.

(** *** [slices] *)

(** [slices.Index]: the index of the first occurrence, or -1. *)
Fixpoint slicesIndex (s : list string) (v : string) : Z :=
  match s with
  | [] => -1
  | x :: s' =>
      if String.eqb v x then 0
      else let i := slicesIndex s' v in
           if (i <? 0)%Z then -1 else (i + 1)%Z
  end.

Definition slicesContains (s : list string) (v : string) : bool :=
  (0 <=? slicesIndex s v)%Z.

(** *** [isMagicDNSName]

    The regular expression
    [^[a-zA-Z0-9-]+\.[a-zA-Z0-9-]+\.ts\.net\.?$]: two labels, each
    followed by a dot, then [ts.net] and maybe a final dot. A label has no
    dot in it, so it is the longest run of label bytes. *)

Definition isLabelByte (c : ascii) : bool :=
  let n := nat_of_ascii c in
  ((97 <=? n) && (n <=? 122)) || ((65 <=? n) && (n <=? 90))
  || ((48 <=? n) && (n <=? 57)) || (n =? 45).

Fixpoint spanLabel (s : list ascii) : list ascii * list ascii :=
  match s with
  | c :: s' =>
      if isLabelByte c
      then let '(label, rest) := spanLabel s' in (c :: label, rest)
      else ([], s)
  | [] => ([], [])
  end.

Definition isMagicDNSName (name : string) : bool :=
  match spanLabel (bytes name) with
  | (_ :: _, dot1 :: rest1) =>
      Ascii.eqb dot1 "." &&
      match spanLabel rest1 with
      | (_ :: _, rest2) =>
          let tail := of_bytes rest2 in
          String.eqb tail ".ts.net" || String.eqb tail ".ts.net."
      | _ => false
      end
  | _ => false
  end.

(** *** What the reconciler depends on *)

(** The constants of the package that name finalizers, annotations and
    labels. *)
Class Names : Type := {
  FinalizerName : string;
  AnnotationExpose : string;
  AnnotationTags : string;
  AnnotationTailnetTargetIP : string;
  AnnotationTailnetTargetFQDN : string;
  annotationTailnetTargetIPOld : string;
  LabelManaged : string;
  LabelParentName : string;
  LabelParentNamespace : string;
  LabelParentType : string;
  LabelProxyClass : string
}.

(** An argument of [fmt.Sprintf]. *)
Inductive fmtArg (E : Type) : Type :=
| ArgString (s : string)
| ArgError (err : error E).
Arguments ArgString {E} s.
Arguments ArgError {E} err.

(** The calls out of the reconciler, on a state [W] of the cluster and of
    the tailscale control plane: the Kubernetes client ([client.Client]),
    the StatefulSet reconciler [ssr] and the library functions. *)
Class Outside (E W : Type) : Type := {
  (** [apierrors.IsNotFound] on an error that is not nil *)
  IsNotFound : error E → bool;
  (** [a.Get(ctx, key, svc)]: the Service, or the error *)
  clientGet : NamespacedName → W → (Service + error E) * W;
  (** [a.Update(ctx, svc)] and [a.Status().Update(ctx, svc)]: the object
      as the call leaves it, and the error *)
  clientUpdate : Service → W → (Service * option (error E)) * W;
  clientStatusUpdate : Service → W → (Service * option (error E)) * W;
  (** [cl.Get] of a ProxyClass, and [tsoperator.ProxyClassIsReady] *)
  ProxyClassObject : Type;
  clientGetProxyClass : string → W → (ProxyClassObject + error E) * W;
  ProxyClassIsReady : ProxyClassObject → bool;
  (** the methods of [a.ssr] *)
  ssrValidate : W → option (error E);
  ssrCleanup : gmap string string → W → (bool * option (error E)) * W;
  ssrProvision : tailscaleSTSConfig → W → (Service * option (error E)) * W;
  ssrDeviceInfo : gmap string string → W
                  → (string * string * list string * option (error E)) * W;
  (** [nameForService] *)
  nameForService : Service → string * option (error E);
  (** [netip.ParseAddr] and [netip.Addr.Is4] *)
  Addr : Type;
  ParseAddr : string → Addr + error E;
  Is4 : Addr → bool;
  (** [fmt.Sprintf] *)
  Sprintf : string → list (fmtArg E) → string
}.

(** *** The reconciler *)

Section Reconciler.
Context `{Names} {E W : Type} `{!Outside E W}.

(** [a.isDefaultLoadBalancer] *)
Variable isDefaultLoadBalancer : bool.

(** A call out of the reconciler. *)
Inductive call : Type :=
| CallGet (key : NamespacedName)
| CallUpdate (svc : Service)
| CallStatusUpdate (svc : Service)
| CallGetProxyClass (name : string)
| CallCleanup (labels : gmap string string)
| CallProvision (sts : tailscaleSTSConfig)
| CallDeviceInfo (labels : gmap string string)
| CallEvent (svc : Service) (eventtype reason message : string).

(** The state a reconcile works on: the world outside, the calls made
    into it so far, the two sets of managed proxies of the reconciler
    (guarded by [a.mu]) and the two gauges. Logging is left out. *)
Record state : Type := mkState {
  outside : W;
  calls : list call;
  managedIngressProxies : gset string;
  managedEgressProxies : gset string;
  gaugeIngressProxies : Z;
  gaugeEgressProxies : Z
}.

Definition M (A : Type) : Type := state → A * state.

Definition ret {A} (a : A) : M A := fun st => (a, st).

Definition bind {A B} (m : M A) (k : A → M B) : M B :=
  fun st => let '(a, st) := m st in k a st.

Notation "'do' x <- m ;; k" := (bind m (fun x => k))
  (at level 10, x pattern, m at level 99, k at level 200).

(** A call [f] into the world outside, logged as [c]. *)
Definition outcall {A} (c : call) (f : W → A * W) : M A :=
  fun st =>
    let '(a, w) := f (outside st) in
    (a, {| outside := w; calls := calls st ++ [c];
           managedIngressProxies := managedIngressProxies st;
           managedEgressProxies := managedEgressProxies st;
           gaugeIngressProxies := gaugeIngressProxies st;
           gaugeEgressProxies := gaugeEgressProxies st |}).

(** [a.managedIngressProxies.Remove(uid); a.managedEgressProxies.Remove(uid)]
    and the two [Set]s of the gauges that follow. *)
Definition removeManaged (uid : string) : M unit :=
  fun st =>
    let ingress := managedIngressProxies st ∖ {[uid]} in
    let egress := managedEgressProxies st ∖ {[uid]} in
    (tt, {| outside := outside st; calls := calls st;
            managedIngressProxies := ingress;
            managedEgressProxies := egress;
            gaugeIngressProxies := Z.of_nat (size ingress);
            gaugeEgressProxies := Z.of_nat (size egress) |}).

(** [a.managedIngressProxies.Add(uid); gaugeIngressProxies.Set(...)] *)
Definition addManagedIngress (uid : string) : M unit :=
  fun st =>
    let ingress := managedIngressProxies st ∪ {[uid]} in
    (tt, {| outside := outside st; calls := calls st;
            managedIngressProxies := ingress;
            managedEgressProxies := managedEgressProxies st;
            gaugeIngressProxies := Z.of_nat (size ingress);
            gaugeEgressProxies := gaugeEgressProxies st |}).

(** [a.managedEgressProxies.Add(uid); gaugeEgressProxies.Set(...)] *)
Definition addManagedEgress (uid : string) : M unit :=
  fun st =>
    let egress := managedEgressProxies st ∪ {[uid]} in
    (tt, {| outside := outside st; calls := calls st;
            managedIngressProxies := managedIngressProxies st;
            managedEgressProxies := egress;
            gaugeIngressProxies := gaugeIngressProxies st;
            gaugeEgressProxies := Z.of_nat (size egress) |}).

Definition childResourceLabels (name ns typ : string) : gmap string string :=
  <[LabelParentType := typ]> (<[LabelParentNamespace := ns]>
    (<[LabelParentName := name]> (<[LabelManaged := "true"]> ∅))).

Definition hasLoadBalancerClass (svc : Service) : bool :=
  String.eqb (SpecType svc) ServiceTypeLoadBalancer
  && match SpecLoadBalancerClass svc with
     | Some class => String.eqb class "tailscale"
     | None => isDefaultLoadBalancer
     end.

Definition hasExposeAnnotation (svc : Service) : bool :=
  String.eqb (index (Annotations svc) AnnotationExpose) "true".

Definition shouldExpose (svc : Service) : bool :=
  if is_empty (SpecClusterIP svc) || String.eqb (SpecClusterIP svc) "None"
  then false
  else hasLoadBalancerClass svc || hasExposeAnnotation svc.

Definition tailnetTargetAnnotation (svc : Service) : string :=
  let ip := index (Annotations svc) AnnotationTailnetTargetIP in
  if negb (is_empty ip) then ip
  else index (Annotations svc) annotationTailnetTargetIPOld.

Definition proxyClassForObject (o : Service) : string :=
  index (Labels o) LabelProxyClass.

Definition proxyClassIsReady (name : string) : M (bool * option (error E)) :=
  do r <- outcall (CallGetProxyClass name) (clientGetProxyClass name) ;;
  match r with
  | inr err => ret (false, Some (Wrap "error getting ProxyClass %s: %w" [name] err))
  | inl proxyClass => ret (ProxyClassIsReady proxyClass, None)
  end.

Definition validateService (svc : Service) : list string :=
  let violations := [] in
  let violations :=
    if negb (is_empty (index (Annotations svc) AnnotationTailnetTargetFQDN))
       && negb (is_empty (index (Annotations svc) AnnotationTailnetTargetIP))
    then violations ++ ["only one of annotations %s and %s can be set";
                        AnnotationTailnetTargetIP; AnnotationTailnetTargetFQDN]
    else violations in
  let fqdn := index (Annotations svc) AnnotationTailnetTargetFQDN in
  if negb (is_empty fqdn) && negb (isMagicDNSName fqdn)
  then violations ++
         [Sprintf "invalid value of annotation %s: %q does not appear to be a valid MagicDNS name"
            [ArgString AnnotationTailnetTargetFQDN; ArgString fqdn]]
  else violations.

(** [maybeCleanup] removes any existing resources related to serving
    [svc] over tailscale, and the finalizer once they are gone. It
    returns the error and [svc] as it leaves it. *)
Definition maybeCleanup (svc : Service) : M (option (error E) * Service) :=
  let ix := slicesIndex (Finalizers svc) FinalizerName in
  if (ix <? 0)%Z then
    do _ <- removeManaged (UID svc) ;;
    ret (None, svc)
  else
    let labels := childResourceLabels (Name svc) (Namespace svc) "svc" in
    do (done, err) <- outcall (CallCleanup labels) (ssrCleanup labels) ;;
    match err with
    | Some err => ret (Some (Wrap "failed to cleanup: %w" [] err), svc)
    | None =>
        if negb done then ret (None, svc)
        else
          let svc := setFinalizers svc
                       (take (Z.to_nat ix) (Finalizers svc)
                        ++ drop (Z.to_nat (ix + 1)) (Finalizers svc)) in
          do (svc, err) <- outcall (CallUpdate svc) (clientUpdate svc) ;;
          match err with
          | Some err => ret (Some (Wrap "failed to remove finalizer: %w" [] err), svc)
          | None =>
              do _ <- removeManaged (UID svc) ;;
              ret (None, svc)
          end
    end.

(** The loop of [maybeProvision] over [tsIPs]: the addresses of the
    family of the cluster IP are appended to [ingress]. *)
Fixpoint appendIngress (clusterIPAddr : Addr) (tsIPs : list string)
    (ingress : list LoadBalancerIngress) : list LoadBalancerIngress :=
  match tsIPs with
  | [] => ingress
  | ip :: tsIPs' =>
      match ParseAddr ip with
      | inr _ => appendIngress clusterIPAddr tsIPs' ingress
      | inl addr =>
          if Bool.eqb (Is4 addr) (Is4 clusterIPAddr)
          then appendIngress clusterIPAddr tsIPs'
                 (ingress ++ [{| IP := ip; Hostname := "" |}])
          else appendIngress clusterIPAddr tsIPs' ingress
      end
  end.

(** The end of [maybeProvision], after [a.ssr.Provision] has returned
    [hsvc]. *)
Definition updateProvisioned (svc hsvc : Service) (sts : tailscaleSTSConfig)
    (crl : gmap string string) : M (option (error E) * Service) :=
  if negb (is_empty (TailnetTargetIP sts)) || negb (is_empty (TailnetTargetFQDN sts)) then
    let headlessSvcName := Name hsvc +:+ "." +:+ Namespace hsvc +:+ ".svc.cluster.local" in
    if negb (String.eqb (SpecExternalName svc) headlessSvcName)
       || negb (String.eqb (SpecType svc) ServiceTypeExternalName) then
      let svc := setExternalName svc headlessSvcName in
      do (svc, err) <- outcall (CallUpdate svc) (clientUpdate svc) ;;
      match err with
      | Some err => ret (Some (Wrap "failed to update service: %w" [] err), svc)
      | None => ret (None, svc)
      end
    else ret (None, svc)
  else if negb (hasLoadBalancerClass svc) then ret (None, svc)
  else
    do (_, tsHost, tsIPs, err) <- outcall (CallDeviceInfo crl) (ssrDeviceInfo crl) ;;
    match err with
    | Some err => ret (Some (Wrap "failed to get device ID: %w" [] err), svc)
    | None =>
        if is_empty tsHost then
          let svc := setIngress svc [] in
          do (svc, err) <- outcall (CallStatusUpdate svc) (clientStatusUpdate svc) ;;
          match err with
          | Some err => ret (Some (Wrap "failed to update service status: %w" [] err), svc)
          | None => ret (None, svc)
          end
        else
          let ingress := [{| IP := ""; Hostname := tsHost |}] in
          match ParseAddr (SpecClusterIP svc) with
          | inr err => ret (Some (Wrap "failed to parse cluster IP: %w" [] err), svc)
          | inl clusterIPAddr =>
              let ingress := appendIngress clusterIPAddr tsIPs ingress in
              let svc := setIngress svc ingress in
              do (svc, err) <- outcall (CallStatusUpdate svc) (clientStatusUpdate svc) ;;
              match err with
              | Some err =>
                  ret (Some (Wrap "failed to update service status: %w" [] err), svc)
              | None => ret (None, svc)
              end
          end
    end.

(** The middle of [maybeProvision], from the finalizer on. *)
Definition provision (svc : Service) (hostname proxyClass : string)
    : M (option (error E) * Service) :=
  do (svc, err) <-
    (if negb (slicesContains (Finalizers svc) FinalizerName) then
       let svc := setFinalizers svc (Finalizers svc ++ [FinalizerName]) in
       outcall (CallUpdate svc) (clientUpdate svc)
     else ret (svc, None)) ;;
  match err with
  | Some err => ret (Some (Wrap "failed to add finalizer: %w" [] err), svc)
  | None =>
      let crl := childResourceLabels (Name svc) (Namespace svc) "svc" in
      let tags :=
        match Annotations svc !! AnnotationTags with
        | Some tstr => Strings.Split tstr ","%char
        | None => []
        end in
      let sts cluster ip fqdn :=
        {| ParentResourceName := Name svc; ParentResourceUID := UID svc;
           STSHostname := hostname; Tags := tags;
           ChildResourceLabels := crl; ProxyClass := proxyClass;
           ClusterTargetIP := cluster; TailnetTargetIP := ip;
           TailnetTargetFQDN := fqdn |} in
      do sts <-
        (if shouldExpose svc then
           do _ <- addManagedIngress (UID svc) ;;
           ret (sts (SpecClusterIP svc) "" "")
         else if negb (is_empty (tailnetTargetAnnotation svc)) then
           do _ <- addManagedEgress (UID svc) ;;
           ret (sts "" (tailnetTargetAnnotation svc) "")
         else if negb (is_empty (index (Annotations svc) AnnotationTailnetTargetFQDN)) then
           let fqdn := index (Annotations svc) AnnotationTailnetTargetFQDN in
           let fqdn := if negb (Strings.HasSuffix fqdn ".") then fqdn +:+ "." else fqdn in
           do _ <- addManagedEgress (UID svc) ;;
           ret (sts "" "" fqdn)
         else ret (sts "" "" "")) ;;
      do (hsvc, err) <- outcall (CallProvision sts) (ssrProvision sts) ;;
      match err with
      | Some err => ret (Some (Wrap "failed to provision: %w" [] err), svc)
      | None => updateProvisioned svc hsvc sts crl
      end
  end.

(** [maybeProvision] ensures that [svc] is exposed over tailscale. It
    returns the error and [svc] as it leaves it. *)
Definition maybeProvision (svc : Service) : M (option (error E) * Service) :=
  fun st =>
  match ssrValidate (outside st) with
  | Some err =>
      let msg := Sprintf "unable to provision proxy resources: invalid config: %v"
                   [ArgError err] in
      (do _ <- outcall (CallEvent svc EventTypeWarning "INVALIDCONFIG" msg)
                   (fun w => (tt, w)) ;;
       ret (None, svc)) st
  | None =>
      let violations := validateService svc in
      if 0 <? length violations then
        let msg := Sprintf "unable to provision proxy resources: invalid Service: %s"
                     [ArgString (Strings.Join violations ", ")] in
        (do _ <- outcall (CallEvent svc EventTypeWarning "INVALIDSERVCICE" msg)
                     (fun w => (tt, w)) ;;
         ret (None, svc)) st
      else
        let proxyClass := proxyClassForObject svc in
        (do (ready, err) <-
           (if negb (is_empty proxyClass) then proxyClassIsReady proxyClass
            else ret (true, None)) ;;
         match err with
         | Some err =>
             ret (Some (Wrap "error verifying ProxyClass for Service: %w" [] err), svc)
         | None =>
             if negb ready then ret (None, svc)
             else
               match nameForService svc with
               | (_, Some err) => ret (Some err, svc)
               | (hostname, None) => provision svc hostname proxyClass
               end
         end) st
  end.

Definition Reconcile (req : NamespacedName) : M (Result * option (error E)) :=
  do r <- outcall (CallGet req) (clientGet req) ;;
  match r with
  | inr err =>
      if IsNotFound err then
        (* Request object not found, could have been deleted after
           reconcile request. *)
        ret (emptyResult, None)
      else ret (emptyResult, Some (Wrap "failed to get svc: %w" [] err))
  | inl svc =>
      let targetIP := tailnetTargetAnnotation svc in
      let targetFQDN := index (Annotations svc) AnnotationTailnetTargetFQDN in
      if negb (IsZero (DeletionTimestamp svc))
         || (negb (shouldExpose svc) && is_empty targetIP && is_empty targetFQDN) then
        do (err, _) <- maybeCleanup svc ;;
        ret (emptyResult, err)
      else
        do (err, _) <- maybeProvision svc ;;
        ret (emptyResult, err)
  end.

End Reconciler.

(** *** A small cluster to run the reconciler on

    The API server holds Services by namespace and name; when it is down
    every call on it fails. Nothing of the proxies is left to clean up, and
    no device has authenticated yet. *)

Module Fake.

Inductive apiError : Set := NotFound | ServiceUnavailable | NoAddress.

Record cluster : Type := mkCluster {
  services : gmap (string * string) Service;
  down : bool
}.

Definition key (svc : Service) : string * string := (Namespace svc, Name svc).

Definition update (svc : Service) (w : cluster)
    : (Service * option (error apiError)) * cluster :=
  if down w then ((svc, Some (External ServiceUnavailable)), w)
  else match services w !! key svc with
       | None => ((svc, Some (External NotFound)), w)
       | Some _ => ((svc, None),
                    {| services := <[key svc := svc]> (services w); down := down w |})
       end.

(** [apierrors.IsNotFound] looks through the errors that wrap. *)
Fixpoint isNotFound (err : error apiError) : bool :=
  match err with
  | External NotFound => true
  | Wrap _ _ err => isNotFound err
  | _ => false
  end.

#[export] Instance fakeNames : Names := {|
  FinalizerName := "tailscale.com/finalizer";
  AnnotationExpose := "tailscale.com/expose";
  AnnotationTags := "tailscale.com/tags";
  AnnotationTailnetTargetIP := "tailscale.com/tailnet-ip";
  AnnotationTailnetTargetFQDN := "tailscale.com/tailnet-fqdn";
  annotationTailnetTargetIPOld := "tailscale.com/ts-tailnet-target-ip";
  LabelManaged := "tailscale.com/managed";
  LabelParentName := "tailscale.com/parent-resource";
  LabelParentNamespace := "tailscale.com/parent-resource-ns";
  LabelParentType := "tailscale.com/parent-resource-type";
  LabelProxyClass := "tailscale.com/proxy-class"
|}.

#[export] Instance fakeOutside : Outside apiError cluster := {|
  IsNotFound := isNotFound;
  clientGet req w :=
    (if down w then inr (External ServiceUnavailable)
     else match services w !! (KeyNamespace req, KeyName req) with
          | Some svc => inl svc
          | None => inr (External NotFound)
          end, w);
  clientUpdate := update;
  clientStatusUpdate := update;
  ProxyClassObject := unit;
  clientGetProxyClass name w := (inr (External NotFound), w);
  ProxyClassIsReady _ := false;
  ssrValidate _ := None;
  ssrCleanup labels w :=
    (if down w then (false, Some (External ServiceUnavailable)) else (true, None), w);
  ssrProvision sts w :=
    (({| Name := "ts-" +:+ ParentResourceName sts; Namespace := "tailscale";
         UID := ""; Labels := ChildResourceLabels sts; Annotations := ∅;
         Finalizers := []; DeletionTimestamp := None;
         SpecClusterIP := "None"; SpecType := "ClusterIP";
         SpecLoadBalancerClass := None; SpecExternalName := "";
         SpecSelector := None; StatusLoadBalancerIngress := [] |}, None), w);
  ssrDeviceInfo labels w := (("", "", [], None), w);
  nameForService svc := (Namespace svc +:+ "-" +:+ Name svc, None);
  Addr := bool;
  ParseAddr s := inr (External NoAddress);
  Is4 b := b;
  Sprintf format args := format
|}.

(** A Service that is being deleted, with the finalizer of the operator
    between two others. *)
Definition deleted : Service :=
  {| Name := "web"; Namespace := "default"; UID := "uid-1";
     Labels := ∅;
     Annotations := {[ "tailscale.com/expose" := "true" ]};
     Finalizers := ["example.com/a"; "tailscale.com/finalizer"; "example.com/b";
                    "tailscale.com/finalizer"];
     DeletionTimestamp := Some 1%Z;
     SpecClusterIP := "10.0.0.7"; SpecType := "ClusterIP";
     SpecLoadBalancerClass := None; SpecExternalName := "";
     SpecSelector := None; StatusLoadBalancerIngress := [] |}.

(** A Service with both tailnet target annotations. *)
Definition twoTargets : Service :=
  {| Name := "egress"; Namespace := "default"; UID := "uid-2";
     Labels := ∅;
     Annotations := {[ "tailscale.com/tailnet-ip" := "100.64.0.9";
                       "tailscale.com/tailnet-fqdn" := "box.tail1234.ts.net" ]};
     Finalizers := []; DeletionTimestamp := None;
     SpecClusterIP := ""; SpecType := "ExternalName";
     SpecLoadBalancerClass := None; SpecExternalName := "unused";
     SpecSelector := None; StatusLoadBalancerIngress := [] |}.

(** A Service that carries both tailnet target annotations, the one of the
    name with an empty value. *)
Definition emptyTarget : Service :=
  {| Name := "egress"; Namespace := "default"; UID := "uid-5";
     Labels := ∅;
     Annotations := {[ "tailscale.com/tailnet-ip" := "100.64.0.9";
                       "tailscale.com/tailnet-fqdn" := "" ]};
     Finalizers := []; DeletionTimestamp := None;
     SpecClusterIP := ""; SpecType := "ExternalName";
     SpecLoadBalancerClass := None; SpecExternalName := "unused";
     SpecSelector := None; StatusLoadBalancerIngress := [] |}.

Definition withService (svc : Service) : cluster :=
  {| services := {[ key svc := svc ]}; down := false |}.

Definition web : NamespacedName := {| KeyNamespace := "default"; KeyName := "web" |}.

Definition emptyCluster : cluster := {| services := ∅; down := false |}.

(** The reconciler at its start, on a state of the world. *)
Definition start (w : cluster) : state :=
  {| outside := w; calls := [];
     managedIngressProxies := ∅; managedEgressProxies := ∅;
     gaugeIngressProxies := 0; gaugeEgressProxies := 0 |}.

End Fake.

End operator.

(** ** Package [path/filepath] on Linux: [Base] *)

Module Filepath.
Import GoString.

(** [for len(path) > 0 && path[len(path)-1] == '/' { path = path[0 : len(path)-1] }],
    on the bytes in reverse. *)
Fixpoint stripSlashes (rpath : list ascii) : list ascii :=
  match rpath with
  | c :: rpath' => if Path.isSlash c then stripSlashes rpath' else rpath
  | [] => []
  end.

(** The bytes after the last slash, read backwards from the end:
    [path[i+1:]] for the last index [i] of a slash, all of [path] when it has
    no slash. *)
Fixpoint lastElem (rpath : list ascii) : list ascii :=
  match rpath with
  | c :: rpath' => if Path.isSlash c then [] else c :: lastElem rpath'
  | [] => []
  end.

(** [filepath.Base] returns the last element of path; trailing slashes are
    removed before extracting it. If the path is empty, [Base] returns ".";
    if the path consists entirely of slashes, [Base] returns "/". *)
Definition BaseBytes (path : list ascii) : list ascii :=
  match path with
  | [] => ["."%char]
  | _ :: _ =>
      let path := lastElem (stripSlashes (rev path)) in
      match path with
      | [] => ["/"%char]
      | _ :: _ => rev path
      end
  end.

Definition Base (path : string) : string := of_bytes (BaseBytes (bytes path)).

(** [filepath.Join] on Linux is [path.Join]. *)
Definition Join (elem : list string) : string := Path.Join elem.

End Filepath.

(** ** The stat cache: [set] *)

Module webdavfsSet.
Import GoError webdavfs.

Section CacheSet.
Context {FileInfo : Type}.

(** [info.Name()] of the interface [fs.FileInfo]. *)
Variable Name : FileInfo → string.

(** [set] caches every info of a directory listing under the path of its
    parent joined with its base name. *)
Definition set (c : statCache FileInfo) (parentPath : string) (infos : list FileInfo)
    : statCache FileInfo :=
  fold_left
    (fun c info =>
       let path := Filepath.Join [parentPath; Filepath.Base (Name info)] in
       cacheSet c path info)
    infos c.

(** The path under which [set] caches an info. *)
Definition pathOf (parentPath : string) (info : FileInfo) : string :=
  Filepath.Join [parentPath; Filepath.Base (Name info)].

End CacheSet.

End webdavfsSet.

(** ** containerboot: the steps of configuration and the tailscale CLI *)

Module containerbootSteps.
Import GoString GoError containerboot.

(** [isTwoStepConfigAuthOnce] returns true if the Tailscale node should be
    configured in two steps and login should only happen once. *)
Definition isTwoStepConfigAuthOnce (cfg : settings) : bool :=
  AuthOnce cfg && is_empty (TailscaledConfigFilePath cfg).

(** [isTwoStepConfigAlwaysAuth] returns true if the Tailscale node should be
    configured in two steps and we should log in every time it starts. *)
Definition isTwoStepConfigAlwaysAuth (cfg : settings) : bool :=
  negb (AuthOnce cfg) && is_empty (TailscaledConfigFilePath cfg).

(** [isOneStepConfig] returns true if the Tailscale node should always be ran
    and configured in a single step by running 'tailscaled <config opts>'. *)
Definition isOneStepConfig (cfg : settings) : bool :=
  nonEmpty (TailscaledConfigFilePath cfg).

Section CLI.
Context {E W : Type}.

(** [exec.CommandContext(ctx, name, args...).Run()], with the standard
    streams of the process: the error of the run, on a state [W] of the
    machine. *)
Variable cmdRun : string → list string → W → option (error E) * W.

(** [strings.Fields]: the words of a string, split around white space. *)
Variable stringsFields : string → list string.

(** The text [fmt] gives for a format with one [%v] and an error. *)
Variable formatV : string → error E → string.

(** The [args] of [tailscaleUp]. *)
Definition tailscaleUpArgs (cfg : settings) : list string :=
  let args := ["--socket=" +:+ Socket cfg; "up"] in
  let args :=
    match AcceptDNS cfg with
    | Some true => args ++ ["--accept-dns=true"]
    | _ => args ++ ["--accept-dns=false"]
    end in
  let args := if nonEmpty (AuthKey cfg)
              then args ++ ["--authkey=" +:+ AuthKey cfg] else args in
  (* --advertise-routes can be passed an empty string to configure a device
     (that might have previously advertised subnet routes) to not advertise
     any routes. *)
  let args := match Routes cfg with
              | Some routes => args ++ ["--advertise-routes=" +:+ routes]
              | None => args
              end in
  let args := if nonEmpty (Hostname cfg)
              then args ++ ["--hostname=" +:+ Hostname cfg] else args in
  if nonEmpty (ExtraArgs cfg) then args ++ stringsFields (ExtraArgs cfg) else args.

(** [tailscaleUp] uses [cfg] to run 'tailscale up'. *)
Definition tailscaleUp (cfg : settings) (w : W) : option (error E) * W :=
  let args := tailscaleUpArgs cfg in
  match cmdRun "tailscale" args w with
  | (Some err, w) => (Some (New (formatV "tailscale up failed: %v" err)), w)
  | (None, w) => (None, w)
  end.

(** The [args] of [tailscaleSet]. *)
Definition tailscaleSetArgs (cfg : settings) : list string :=
  let args := ["--socket=" +:+ Socket cfg; "set"] in
  let args :=
    match AcceptDNS cfg with
    | Some true => args ++ ["--accept-dns=true"]
    | _ => args ++ ["--accept-dns=false"]
    end in
  let args := match Routes cfg with
              | Some routes => args ++ ["--advertise-routes=" +:+ routes]
              | None => args
              end in
  if nonEmpty (Hostname cfg) then args ++ ["--hostname=" +:+ Hostname cfg] else args.

(** [tailscaleSet] uses [cfg] to run 'tailscale set' to set any known
    configuration options that are passed in via environment variables. *)
Definition tailscaleSet (cfg : settings) (w : W) : option (error E) * W :=
  let args := tailscaleSetArgs cfg in
  match cmdRun "tailscale" args w with
  | (Some err, w) => (Some (New (formatV "tailscale set failed: %v" err)), w)
  | (None, w) => (None, w)
  end.

End CLI.

End containerbootSteps.

(** ** The operator: the handlers that map an object to reconcile requests *)

Module operatorHandlers.
Import GoString operator.

(** [reconcile.Request] *)
Record Request : Type := mkRequest {
  RequestNamespacedName : NamespacedName
}.

(** What the handlers read of a [client.Object]. *)
Class Object (O : Type) : Type := {
  GetLabels : O → gmap string string;
  GetNamespace : O → string;
  GetName : O → string
}.

#[export] Instance serviceObject : Object Service := {|
  GetLabels := Labels;
  GetNamespace := Namespace;
  GetName := Name
|}.

Section Handlers.
Context `{Names} {O : Type} `{!Object O}.

Definition isManagedResource (o : O) : bool :=
  let ls := GetLabels o in
  String.eqb (index ls LabelManaged) "true".

Definition isManagedByType (o : O) (typ : string) : bool :=
  let ls := GetLabels o in
  isManagedResource o && String.eqb (index ls LabelParentType) typ.

Definition parentFromObjectLabels (o : O) : NamespacedName :=
  let ls := GetLabels o in
  {| KeyNamespace := index ls LabelParentNamespace;
     KeyName := index ls LabelParentName |}.

Definition managedResourceHandlerForType (typ : string) (o : O) : list Request :=
  if negb (isManagedByType o typ) then []
  else [{| RequestNamespacedName := parentFromObjectLabels o |}].

Definition serviceHandler (o : O) : list Request :=
  if isManagedByType o "svc" then
    (* a Service managed by a Service: enqueue its parent *)
    [{| RequestNamespacedName := parentFromObjectLabels o |}]
  else if isManagedResource o then
    (* managed by a resource that is not a Service: leave it alone *)
    []
  else
    (* not a managed Service: enqueue it *)
    [{| RequestNamespacedName :=
          {| KeyNamespace := GetNamespace o; KeyName := GetName o |} |}].

End Handlers.

End operatorHandlers.

(** ** k8s-operator/apis/v1alpha1: the Connector types *)

Module v1alpha1.

(** The loop of [Routes.Stringify] over [routes[1:]], on the builder. *)
Fixpoint writeRoutes (routes : list string) (sb : string) : string :=
  match routes with
  | [] => sb
  | r :: routes' => writeRoutes routes' (sb +:+ ("," +:+ r))
  end.

(** [Routes.Stringify] *)
Definition RoutesStringify (routes : list string) : string :=
  match routes with
  | [] => ""
  | r0 :: routes' => writeRoutes routes' r0
  end.

(** The routes of a subnet router. *)
Definition privateRoutes : list string := ["10.0.0.0/8"; "192.168.0.0/24"].

End v1alpha1.

(** ** The shape of cleaned paths *)

Module CleanForm.
Import GoString.

(** The elements of a path joined by slashes. *)
Fixpoint joinBytes (elems : list (list ascii)) : list ascii :=
  match elems with
  | [] => []
  | [e] => e
  | e :: elems' => e ++ "/"%char :: joinBytes elems'
  end.

(** A path written from its elements, after the slash of the root when it
    is rooted. *)
Definition render (rooted : bool) (elems : list (list ascii)) : list ascii :=
  (if rooted then ["/"%char] else []) ++ joinBytes elems.

Definition dotdotElem : list ascii := ["."%char; "."%char].

(** A name: an element of a path that is not empty, has no slash in it and
    is neither [.] nor [..]. *)
Definition nameBytes (e : list ascii) : Prop :=
  e ≠ [] ∧ ("/"%char ∉ e) ∧ e ≠ ["."%char] ∧ e ≠ dotdotElem.

Definition name (s : string) : Prop := nameBytes (bytes s).

(** What the loop of [path.Clean] keeps: the buffer holds the root, then
    some [..] elements (none when rooted) up to the index [dd], then names. *)
Definition cleanInv (rooted : bool) (rout : list ascii) (dd : nat) : Prop :=
  ∃ k names,
    rout = rev (render rooted (replicate k dotdotElem ++ names))
    ∧ (rooted = true → k = 0)
    ∧ Forall nameBytes names
    ∧ dd = length (render rooted (replicate k dotdotElem)).

End CleanForm.

(** ** Settings to run containerboot on *)

Module containerbootRuns.
Import GoError containerboot.

(** The settings of an empty environment. *)
Definition defaultSettings : settings := mainSettings (E:=Empty_set) ∅.

(** An environment that sets both names of the auth key, the first to the
    empty string. *)
Definition twoAuthKeys : gmap string string :=
  {[ "TS_AUTHKEY" := ""; "TS_AUTH_KEY" := "tskey-auth-k1" ]}.

(** An environment that sets only the second name of the auth key. *)
Definition oldAuthKey : gmap string string :=
  {[ "TS_AUTH_KEY" := "tskey-auth-k1" ]}.

(** The settings of a subnet router that logs in once: no auth key in the
    environment, routes and a hostname. *)
Definition routerEnv : gmap string string :=
  {[ "TS_AUTH_ONCE" := "true"; "TS_ROUTES" := "10.0.0.0/8,192.168.0.0/24";
     "TS_HOSTNAME" := "router"; "TS_ACCEPT_DNS" := "true" ]}.

Definition routerSettings : settings := mainSettings (E:=Empty_set) routerEnv.

End containerbootRuns.

(** ** A WebDAV server to run the stat cache on *)

Module webdavfsRuns.
Import GoError webdavfs.

(** A file info is the name of its file here; the server knows of every
    name and counts the requests it serves. *)
Definition statServer (name : string) (requests : nat)
    : (string * option (error Empty_set)) * nat :=
  ((name, None), S requests).

Definition emptyCache : statCache string := {| cache := ∅ |}.

(** The listing of a directory. *)
Definition listing : list string := ["a.txt"; "sub/"; "/x/a.txt"].

End webdavfsRuns.

(** ** The names that [isMagicDNSName] accepts *)

Module MagicDNS.
Import GoString operator.

(** A label as the regular expression has it, [[a-zA-Z0-9-]+]: not empty,
    of letters, digits and dashes. *)
Definition label (l : string) : Prop :=
  l ≠ "" ∧ forallb isLabelByte (bytes l) = true.

(** The language of [^[a-zA-Z0-9-]+\.[a-zA-Z0-9-]+\.ts\.net\.?$]. *)
Definition magicDNSName (name : string) : Prop :=
  ∃ host tailnet,
    label host ∧ label tailnet
    ∧ (name = host +:+ "." +:+ tailnet +:+ ".ts.net"
       ∨ name = host +:+ "." +:+ tailnet +:+ ".ts.net.").

End MagicDNS.

(** ** Objects to run the handlers on *)

Module operatorRuns.
Import operator operator.Fake operatorHandlers.

(** The headless Service that the operator keeps for the Service [web] of
    the namespace [default]. *)
Definition childOfWeb : Service :=
  {| Name := "ts-web-x7k2p"; Namespace := "tailscale"; UID := "uid-9";
     Labels := childResourceLabels "web" "default" "svc";
     Annotations := ∅;
     Finalizers := []; DeletionTimestamp := None;
     SpecClusterIP := "None"; SpecType := "ClusterIP";
     SpecLoadBalancerClass := None; SpecExternalName := "";
     SpecSelector := None; StatusLoadBalancerIngress := [] |}.

(** A Service to expose, with no finalizer yet, and the same Service
    asking for a ProxyClass. *)
Definition exposed : Service :=
  {| Name := "web"; Namespace := "default"; UID := "uid-3";
     Labels := ∅;
     Annotations := {[ "tailscale.com/expose" := "true" ]};
     Finalizers := []; DeletionTimestamp := None;
     SpecClusterIP := "10.0.0.7"; SpecType := "ClusterIP";
     SpecLoadBalancerClass := None; SpecExternalName := "";
     SpecSelector := None; StatusLoadBalancerIngress := [] |}.

Definition withProxyClass : Service :=
  {| Name := "web"; Namespace := "default"; UID := "uid-3";
     Labels := {[ "tailscale.com/proxy-class" := "prod" ]};
     Annotations := {[ "tailscale.com/expose" := "true" ]};
     Finalizers := []; DeletionTimestamp := None;
     SpecClusterIP := "10.0.0.7"; SpecType := "ClusterIP";
     SpecLoadBalancerClass := None; SpecExternalName := "";
     SpecSelector := None; StatusLoadBalancerIngress := [] |}.

(** A Service for a tailnet target that has been provisioned before: it
    has the finalizer and points at the headless Service of its proxy. *)
Definition egress : Service :=
  {| Name := "db"; Namespace := "default"; UID := "uid-4";
     Labels := ∅;
     Annotations := {[ "tailscale.com/tailnet-ip" := "100.64.0.9" ]};
     Finalizers := ["tailscale.com/finalizer"]; DeletionTimestamp := None;
     SpecClusterIP := ""; SpecType := "ExternalName";
     SpecLoadBalancerClass := None;
     SpecExternalName := "ts-db.tailscale.svc.cluster.local";
     SpecSelector := None; StatusLoadBalancerIngress := [] |}.

(** The headless Service of the proxy of [egress]. *)
Definition egressProxy : Service :=
  {| Name := "ts-db"; Namespace := "tailscale"; UID := "";
     Labels := childResourceLabels "db" "default" "svc"; Annotations := ∅;
     Finalizers := []; DeletionTimestamp := None;
     SpecClusterIP := "None"; SpecType := "ClusterIP";
     SpecLoadBalancerClass := None; SpecExternalName := "";
     SpecSelector := None; StatusLoadBalancerIngress := [] |}.

(** The cluster when its API server is down. *)
Definition downCluster : cluster := {| services := ∅; down := true |}.

End operatorRuns.

(** ** What a reconcile of a Service keeps *)

Module operatorInv.
Import GoString operator.

(** At most one of the three targets of a proxy is set. *)
Definition oneTarget (sts : tailscaleSTSConfig) : Prop :=
length (filter (λ s, s ≠ "")
[ClusterTargetIP sts; TailnetTargetIP sts; TailnetTargetFQDN sts]) ≤ 1.

(** The target name of a proxy, when set, ends with a dot. *)
Definition fqdnDotted (sts : tailscaleSTSConfig) : Prop :=
TailnetTargetFQDN sts = "" ∨ Strings.HasSuffix (TailnetTargetFQDN sts) "." = true.

(** The labels of the child resources of a proxy name its parent, a
Service. *)
Definition labelsOfParent `{Names} (sts : tailscaleSTSConfig) : Prop :=
∃ ns, ChildResourceLabels sts = childResourceLabels (ParentResourceName sts) ns "svc".

(** What holds of the configuration in a call of [a.ssr.Provision]. *)
Definition provisionCall `{Names} (c : call) : Prop :=
match c with
| CallProvision sts => oneTarget sts ∧ fqdnDotted sts ∧ labelsOfParent sts
| _ => True
end.

(** The calls of a cleanup: [a.ssr.Cleanup] and [a.Update]. *)
Definition cleanupCall (c : call) : Prop :=
match c with
| CallCleanup _ | CallUpdate _ => True
| _ => False
end.

(** The gauges show the sizes of the two sets of managed proxies. *)
Definition gaugesInSync {W} (st : state (W:=W)) : Prop :=
gaugeIngressProxies st = Z.of_nat (size (managedIngressProxies st))
∧ gaugeEgressProxies st = Z.of_nat (size (managedEgressProxies st)).

(** [m] keeps [I]. *)
Definition keeps {W A} (I : state (W:=W) → Prop) (m : M A) : Prop :=
∀ st, I st → I (snd (m st)).

End operatorInv.

(** * Properties of the path helpers *)

Module SharedProofs.
Import GoString Path.

Lemma bytes_of_bytes (l : list ascii) : bytes (of_bytes l) = l.
Proof. apply list_ascii_of_string_of_list_ascii. Qed.

Lemma of_bytes_bytes (s : string) : of_bytes (bytes s) = s.
Proof. apply string_of_list_ascii_of_string. Qed.

Lemma last_rev {A} (l : list A) : last (rev l) = head l.
Proof. destruct l as [|x l]; [done|]. simpl. apply last_snoc. Qed.

Lemma head_rev {A} (l : list A) : head (rev l) = last l.
Proof. by rewrite <- (rev_involutive l) at 2; rewrite last_rev. Qed.

(** *** [strings.Split] *)

Lemma SplitByte_cons (s : list ascii) (sep : ascii) :
  ∃ piece pieces, Strings.SplitByte s sep = piece :: pieces.
Proof.
  destruct s as [|c s]; simpl; [by eauto|].
  destruct (Ascii.eqb c sep); [by eauto|].
  destruct (Strings.SplitByte s sep); eauto.
Qed.

(** The first piece is a prefix of the input. *)
Lemma SplitByte_head (s : list ascii) (sep : ascii) piece pieces c :
  Strings.SplitByte s sep = piece :: pieces →
  head piece = Some c → head s = Some c.
Proof.
  destruct s as [|c' s]; simpl.
  - by intros [= <- <-].
  - destruct (Ascii.eqb c' sep).
    + by intros [= <- <-].
    + by destruct (Strings.SplitByte s sep); intros [= <- <-].
Qed.

(** The last piece is a suffix of the input (all of it when it is the
    only piece). *)
Lemma SplitByte_snoc (s : list ascii) (sep : ascii) :
  ∃ init piece, Strings.SplitByte s sep = init ++ [piece] ∧
    match init with
    | [] => s = piece
    | _ :: _ => ∃ pre, s = pre ++ piece
    end.
Proof.
  induction s as [|c s (init & piece & Hs & Hsuf)]; simpl.
  - by exists [], [].
  - rewrite Hs. destruct (Ascii.eqb c sep).
    + exists ([] :: init), piece. split; [done|].
      destruct init; [subst; by exists [c]|].
      destruct Hsuf as [pre ->]. by exists (c :: pre).
    + destruct init as [|i init]; simpl.
      * exists [], (c :: piece). by subst.
      * exists ((c :: i) :: init), piece. split; [done|].
        destruct Hsuf as [pre ->]. by exists (c :: pre).
Qed.

Lemma SplitByte_last (s : list ascii) (sep : ascii) piece c :
  last (Strings.SplitByte s sep) = Some piece →
  last piece = Some c → last s = Some c.
Proof.
  destruct (SplitByte_snoc s sep) as (init & piece' & -> & Hsuf).
  rewrite last_snoc. intros [= ->] Hc.
  assert (∃ pre, s = pre ++ piece) as [pre ->].
  { destruct init; [by exists []; subst|done]. }
  by rewrite last_app, Hc.
Qed.

(** *** [strings.Trim] *)

Lemma trimLeftASCII_head (s cutset : list ascii) c :
  head (Strings.trimLeftASCII s cutset) = Some c → byte_in c cutset = false.
Proof.
  induction s as [|c' s IH]; simpl; [done|].
  destruct (byte_in c' cutset) eqn:Hc'; [done|]. simpl. by intros [= <-].
Qed.

Lemma trimLeftASCII_suffix (s cutset : list ascii) :
  ∃ pre, s = pre ++ Strings.trimLeftASCII s cutset.
Proof.
  induction s as [|c' s [pre IH]]; simpl; [by exists []|].
  destruct (byte_in c' cutset).
  - exists (c' :: pre). simpl. by f_equal.
  - by exists [].
Qed.

Lemma trimRightASCII_last (s cutset : list ascii) c :
  last (Strings.trimRightASCII s cutset) = Some c → byte_in c cutset = false.
Proof.
  unfold Strings.trimRightASCII. rewrite last_rev. apply trimLeftASCII_head.
Qed.

(** Neither end of a trimmed string is in the cutset. *)
Lemma TrimBytes_head (s cutset : list ascii) c :
  cutset ≠ [] →
  head (Strings.TrimBytes s cutset) = Some c → byte_in c cutset = false.
Proof.
  intros Hcut. unfold Strings.TrimBytes.
  destruct s as [|c0 s]; [done|]. destruct cutset as [|k cutset]; [done|].
  apply trimLeftASCII_head.
Qed.

Lemma TrimBytes_last (s cutset : list ascii) c :
  cutset ≠ [] →
  last (Strings.TrimBytes s cutset) = Some c → byte_in c cutset = false.
Proof.
  intros Hcut. unfold Strings.TrimBytes.
  destruct s as [|c0 s]; [done|]. destruct cutset as [|k cutset]; [done|].
  set (r := Strings.trimRightASCII _ _).
  destruct (trimLeftASCII_suffix r (k :: cutset)) as [pre Hr].
  intros Hc. apply (trimRightASCII_last (c0 :: s)). fold r.
  by rewrite Hr, last_app, Hc.
Qed.

(** *** [path.Clean] *)

Lemma copyElem_spec (rest rout rest' rout' : list ascii) :
  Path.copyElem rest rout = (rest', rout') →
  length rest' ≤ length rest ∧ ∃ k, rout' = k ++ rout.
Proof.
  revert rout. induction rest as [|c rest IH]; simpl; intros rout.
  - intros [= <- <-]. split; [done|]. by exists [].
  - destruct (Path.isSlash c).
    + intros [= <- <-]. split; [done|]. by exists [].
    + intros H. destruct (IH _ H) as [Hlen [k ->]]. split; [lia|].
      exists (k ++ [c]). by rewrite <- app_assoc.
Qed.

(** The fuel given to the loop never runs out: any fuel that covers the
    bytes left gives the same result. *)
Lemma cleanLoop_fuel (f1 f2 : nat) rooted (rest rout : list ascii) dotdot :
  length rest ≤ f1 → length rest ≤ f2 →
  Path.cleanLoop f1 rooted rest rout dotdot = Path.cleanLoop f2 rooted rest rout dotdot.
Proof.
  revert f2 rest rout dotdot.
  induction f1 as [|f1 IH]; intros f2 rest rout dotdot H1 H2.
  - destruct rest; [by destruct f2|simpl in H1; lia].
  - destruct f2 as [|f2]; [destruct rest; [done|simpl in H2; lia]|].
    destruct rest as [|c rest1]; [done|]. simpl in H1, H2. simpl.
    assert (length (tl rest1) ≤ length rest1) by (destruct rest1; simpl; lia).
    destruct (Path.isSlash c) eqn:Hc; [apply IH; lia|].
    destruct (Path.isDot c && Path.endsElem rest1); [apply IH; lia|].
    destruct (Path.isDot c && _).
    + destruct (dotdot <? length rout); [apply IH; lia|].
      destruct (negb rooted); apply IH; lia.
    + destruct (Path.copyElem rest1 _) as [rest' rout2] eqn:Hcp.
      apply copyElem_spec in Hcp as [Hlen _]. apply IH; lia.
Qed.

Lemma holdsRoot_cons c rout : holdsRoot rout → holdsRoot (c :: rout).
Proof. intros [l ->]. by exists (c :: l). Qed.

Lemma holdsRoot_app k rout : holdsRoot rout → holdsRoot (k ++ rout).
Proof. intros [l ->]. exists (k ++ l). by rewrite app_assoc. Qed.

Lemma holdsRoot_tail c rout : 1 < length (c :: rout) → holdsRoot (c :: rout) → holdsRoot rout.
Proof.
  intros Hlen [l Hl]. destruct l as [|c' l]; simplify_eq/=; [lia|]. by exists l.
Qed.

Lemma backtrack_holdsRoot (last : ascii) (rout : list ascii) :
  holdsRoot rout → holdsRoot (Path.backtrack 1 last rout).
Proof.
  revert last. induction rout as [|c rout IH]; intros last Hroot; simpl; [done|].
  destruct (_ <? _) eqn:Hlt; simpl; [|done].
  destruct (negb _); [|done].
  apply IH, (holdsRoot_tail c); [|done].
  apply Nat.ltb_lt in Hlt. simpl. lia.
Qed.

(** For a rooted path, [dotdot] stays 1 and the loop never removes the
    leading slash from the buffer. *)
Lemma cleanLoop_holdsRoot (fuel : nat) (rest rout : list ascii) :
  holdsRoot rout → holdsRoot (Path.cleanLoop fuel true rest rout 1).
Proof.
  revert rest rout. induction fuel as [|fuel IH]; intros rest rout Hroot; [done|].
  destruct rest as [|c rest1]; [done|]. simpl.
  destruct (Path.isSlash c) eqn:Hc; [by apply IH|].
  destruct (Path.isDot c && Path.endsElem rest1); [by apply IH|].
  destruct (Path.isDot c && _).
  - destruct (1 <? length rout) eqn:Hlt; [|by apply IH].
    apply IH. destruct rout as [|last rout']; [done|].
    apply backtrack_holdsRoot, (holdsRoot_tail last); [|done].
    by apply Nat.ltb_lt in Hlt.
  - destruct (Path.copyElem rest1 _) as [rest' rout2] eqn:Hcp.
    apply copyElem_spec in Hcp as [_ [k ->]].
    apply IH, holdsRoot_app, holdsRoot_cons.
    destruct (negb (length rout =? 1)); [by apply holdsRoot_cons|done].
Qed.

(** [path.Clean] keeps the leading slash of a rooted path. *)
Lemma CleanBytes_rooted (path : list ascii) :
  ∃ rest, Path.CleanBytes ("/"%char :: path) = "/"%char :: rest.
Proof.
  unfold Path.CleanBytes. change (Path.isSlash "/") with true. cbv iota zeta.
  destruct (cleanLoop_holdsRoot (length ("/"%char :: path)) path ["/"%char]) as [l ->].
  { by exists []. }
  rewrite length_app, Nat.add_comm. simpl.
  rewrite rev_app_distr. simpl. eauto.
Qed.

Lemma cleanLoop_slashes (fuel n : nat) :
  n ≤ fuel →
  Path.cleanLoop fuel true (replicate n "/"%char) ["/"%char] 1 = ["/"%char].
Proof.
  revert fuel. induction n as [|n IH]; intros fuel Hn; [by destruct fuel|].
  destruct fuel as [|fuel]; [lia|]. simpl. apply IH. lia.
Qed.

(** The transcription agrees with the table of Go's own test of
    [path.Clean]. *)
Example Clean_go_test_table :
  map Path.Clean
    [""; "abc"; "abc/def"; "a/b/c"; "."; ".."; "../.."; "../../abc"; "/abc"; "/";
     "abc/"; "abc/def/"; "a/b/c/"; "./"; "../"; "../../"; "/abc/";
     "abc//def//ghi"; "//abc"; "///abc"; "//abc//"; "abc//";
     "abc/./def"; "/./abc/def"; "abc/.";
     "abc/def/ghi/../jkl"; "abc/def/../ghi/../jkl"; "abc/def/.."; "abc/def/../..";
     "/abc/def/../.."; "abc/def/../../.."; "/abc/def/../../..";
     "abc/def/../../../ghi/jkl/../../../mno";
     "abc/./../def"; "abc//./../def"; "abc/../../././../def"]
  = ["."; "abc"; "abc/def"; "a/b/c"; "."; ".."; "../.."; "../../abc"; "/abc"; "/";
     "abc"; "abc/def"; "a/b/c"; "."; ".."; "../.."; "/abc";
     "abc/def/ghi"; "/abc"; "/abc"; "/abc"; "abc";
     "abc/def"; "/abc/def"; "abc";
     "abc/def/jkl"; "abc/jkl"; "abc"; ".";
     "/"; ".."; "/";
     "../../mno";
     "def"; "def"; "../../def"].
Proof. reflexivity. Qed.

(** *** [path.Join] *)

Example Join_go_test_table :
  map Path.Join
    [[]; [""]; ["a"]; ["a"; ""]; ["a"; "b"]; ["a"; "b/"]; ["a/"; "b"]; ["a/"; ""];
     [""; "a"]; [""; ""]; ["/"; "a"]; ["/"; ""]; ["a"; "../b"]]
  = [""; ""; "a"; "a"; "a/b"; "a/b"; "a/b"; "a";
     "a"; ""; "/a"; "/"; "b"].
Proof. reflexivity. Qed.

Lemma joinLoop_prefix (elem : list string) (buf : list ascii) :
  ∃ k, Path.joinLoop elem buf = buf ++ k.
Proof.
  revert buf. induction elem as [|e elem IH]; intros buf; simpl.
  - exists []. by rewrite app_nil_r.
  - destruct (_ || _); [|done].
    destruct (IH ((if 0 <? length buf then buf ++ ["/"%char] else buf) ++ bytes e))
      as [k ->].
    destruct (0 <? length buf); rewrite <- !app_assoc; eauto.
Qed.

Lemma joinLoop_empties (n : nat) (buf : list ascii) :
  buf ≠ [] →
  Path.joinLoop (replicate n "") buf = buf ++ replicate n "/"%char.
Proof.
  revert buf. induction n as [|n IH]; intros buf Hbuf; simpl.
  - by rewrite app_nil_r.
  - destruct buf as [|b buf]; [done|]. simpl.
    rewrite app_nil_r, (IH (b :: buf ++ ["/"%char])); [|done].
    simpl. rewrite <- app_assoc. done.
Qed.

Lemma join_size_ge (elem : list string) (size : nat) :
  size ≤ fold_left (fun size e => size + String.length e) elem size.
Proof.
  revert size. induction elem as [|e elem IH]; intros size; simpl; [done|].
  specialize (IH (size + String.length e)). lia.
Qed.

Lemma fullParts_app (parts fullParts : list string) :
  fold_left (fun fullParts part => fullParts ++ [part]) parts fullParts
  = fullParts ++ parts.
Proof.
  revert fullParts. induction parts as [|p parts IH]; intros fullParts; simpl.
  - by rewrite app_nil_r.
  - by rewrite IH, <- app_assoc.
Qed.

Lemma Join_rooted (elem : list string) :
  Path.Join ("/" :: elem)
  = of_bytes (Path.CleanBytes (Path.joinLoop elem ["/"%char])).
Proof.
  unfold Path.Join. simpl fold_left.
  pose proof (join_size_ge elem 1) as Hsize.
  destruct (_ =? 0) eqn:Hz; [apply Nat.eqb_eq in Hz; lia|done].
Qed.

(** *** The helpers of package [shared] *)

Lemma shared_Join_unfold (parts : list string) :
  shared.Join parts = Path.Join ("/" :: parts).
Proof. unfold shared.Join. by rewrite fullParts_app. Qed.

(** C6: for every list of parts, [Join] is [path.Join] applied to ["/"]
    followed by the parts; hence its result begins with a slash, and [Join]
    of no parts, or of any number of empty parts, is exactly ["/"]. *)
Theorem Join_is_path_Join_of_root (parts : list string) (n : nat) :
  shared.Join parts = Path.Join ("/" :: parts)
  ∧ (∃ rest, shared.Join parts = String "/" rest)
  ∧ shared.Join [] = "/"
  ∧ shared.Join (replicate n "") = "/".
Proof.
  split; [apply shared_Join_unfold|]. split; [|split; [done|]].
  - rewrite shared_Join_unfold, Join_rooted.
    destruct (joinLoop_prefix parts ["/"%char]) as [k ->].
    change (["/"%char] ++ k) with ("/"%char :: k).
    destruct (CleanBytes_rooted k) as [rest ->]. simpl. eauto.
  - rewrite shared_Join_unfold, Join_rooted, joinLoop_empties; [|done].
    change (["/"%char] ++ ?k) with ("/"%char :: k). unfold Path.CleanBytes. change (Path.isSlash "/") with true.
    cbv iota zeta. rewrite cleanLoop_slashes; [done|].
    simpl. rewrite length_replicate. lia.
Qed.

Lemma startsWith_of_bytes (piece : list ascii) (c : ascii) :
  PathElem.startsWith (of_bytes piece) c = true → head piece = Some c.
Proof.
  unfold PathElem.startsWith. rewrite bytes_of_bytes.
  destruct piece as [|c' piece]; [done|]. simpl.
  by intros ->%Ascii.eqb_eq.
Qed.

Lemma endsWith_of_bytes (piece : list ascii) (c : ascii) :
  PathElem.endsWith (of_bytes piece) c = true → last piece = Some c.
Proof.
  unfold PathElem.endsWith. rewrite bytes_of_bytes, <- head_rev.
  destruct (rev piece) as [|c' l]; [done|]. simpl.
  by intros ->%Ascii.eqb_eq.
Qed.

(** C9: [CleanAndSplit] returns the non-empty list
    [strings.Split(strings.Trim(path.Clean(p), "/."), "/")]; its first
    element does not start with a dot and its last element does not end
    with one, the trim having removed them ([CleanAndSplit "/.hidden"] is
    [["hidden"]]); on [""] and on ["/"] it returns the list holding only the
    empty string. *)
Theorem CleanAndSplit_trims_dots (p : string) :
  shared.CleanAndSplit p
    = Strings.Split (Strings.Trim (Path.Clean p) "/.") "/"%char
  ∧ 0 < length (shared.CleanAndSplit p)
  ∧ match shared.CleanAndSplit p with
    | first :: _ => PathElem.startsWith first "."%char = false
    | [] => False
    end
  ∧ match last (shared.CleanAndSplit p) with
    | Some final => PathElem.endsWith final "."%char = false
    | None => False
    end
  ∧ shared.CleanAndSplit "/.hidden" = ["hidden"]
  ∧ shared.CleanAndSplit "" = [""]
  ∧ shared.CleanAndSplit "/" = [""].
Proof.
  split; [done|].
  unfold shared.CleanAndSplit, shared.sep, shared.sepStringAndDot.
  unfold Strings.Split, Strings.Trim.
  rewrite bytes_of_bytes.
  set (t := Strings.TrimBytes _ _).
  assert (Hhead : ∀ c, head t = Some c → byte_in c (bytes "/.") = false)
    by (intros c; by apply TrimBytes_head).
  assert (Hlast : ∀ c, last t = Some c → byte_in c (bytes "/.") = false)
    by (intros c; by apply TrimBytes_last).
  clearbody t.
  destruct (SplitByte_cons t "/"%char) as (piece & pieces & Hs).
  split; [rewrite Hs; simpl; lia|]. split; [|split; [|done]].
  - rewrite Hs. simpl.
    destruct (PathElem.startsWith _ _) eqn:Hdot; [|done].
    apply startsWith_of_bytes in Hdot.
    by pose proof (Hhead _ (SplitByte_head _ _ _ _ _ Hs Hdot)).
  - destruct (SplitByte_snoc t "/"%char) as (init & final & Hsnoc & _).
    rewrite Hsnoc, map_app. simpl. rewrite last_snoc.
    destruct (PathElem.endsWith _ _) eqn:Hdot; [|done].
    apply endsWith_of_bytes in Hdot.
    assert (last (Strings.SplitByte t "/"%char) = Some final) as Hfin
      by (by rewrite Hsnoc, last_snoc).
    by pose proof (Hlast _ (SplitByte_last _ _ _ _ Hfin Hdot)).
Qed.

End SharedProofs.

(** * Properties of containerboot *)

Module ContainerbootProofs.
Import GoString GoError containerboot.

Lemma nonEmpty_true (s : string) : nonEmpty s = true ↔ s ≠ "".
Proof. destruct s; simpl; split; done. Qed.

Lemma is_empty_true (s : string) : is_empty s = true ↔ s = "".
Proof. destruct s; simpl; split; done. Qed.

Lemma nonEmpty_false (s : string) : nonEmpty s = false ↔ s = "".
Proof. destruct s; simpl; split; done. Qed.

Lemma setStateDir_same (cfg : settings) : setStateDir cfg (StateDir cfg) = cfg.
Proof. by destruct cfg. Qed.

(** [args] as built by successive appends is its parts in their order. *)
Ltac parts_of_args :=
  simpl; rewrite <- ?app_assoc, ?app_nil_r; simpl; rewrite ?app_nil_r; reflexivity.

Section Tailscaled.
Context {E FS : Type}.
Variable osStat : string → FS → option (error E).
Variable isNotExist : error E → bool.
Variable osMkdirAll : string → FS → option (error E) * FS.
Variable unixMknod : string → FS → option (error E) * FS.
Variable stringsFields : string → list string.

Local Abbreviation ensureTunFile := (ensureTunFile osStat isNotExist osMkdirAll unixMknod).
Local Abbreviation tailscaledArgs :=
  (tailscaledArgs osStat isNotExist osMkdirAll unixMknod stringsFields).

(** C1 (as amended): [tailscaledArgs] exits the process exactly when
    [cfg.UserspaceMode] is false and [ensureTunFile(cfg.Root)] fails.
    In every other case it returns an argv that starts with
    ["--socket="+cfg.Socket] followed by the state arguments: in
    Kubernetes with a non-empty secret ["--state=kube:"+cfg.KubeSecret]
    and ["--statedir="] with the state directory, which is set to
    ["/tmp"] when it was empty; otherwise only ["--statedir="+cfg.StateDir]
    when that is non-empty; otherwise ["--state=mem:"] and
    ["--statedir=/tmp"]. Nothing else comes between them and the later
    arguments, which are those of [laterArgs] and do not depend on the
    state settings. *)
Theorem tailscaledArgs_state_arguments (cfg : settings) (fs : FS) :
  match fst (tailscaledArgs cfg fs) with
  | Returns (args, cfg') =>
      (UserspaceMode cfg = true ∨ fst (ensureTunFile (Root cfg) fs) = None)
      ∧ args = ("--socket=" +:+ Socket cfg) :: stateArgsSpec cfg
                 ++ laterArgs stringsFields cfg
      ∧ cfg' = setStateDir cfg (stateDirSpec cfg)
  | Fatalf _ err =>
      UserspaceMode cfg = false
      ∧ fst (ensureTunFile (Root cfg) fs) = Some err
  end.
Proof.
  unfold containerboot.tailscaledArgs, stateArgsSpec, stateDirSpec, laterArgs.
  set (sw := if InKubernetes cfg && nonEmpty (KubeSecret cfg) then _ else _).
  assert (Hsw : ∃ cfg', sw = (("--socket=" +:+ Socket cfg) :: stateArgsSpec cfg, cfg')
            ∧ cfg' = setStateDir cfg (stateDirSpec cfg)
            ∧ UserspaceMode cfg' = UserspaceMode cfg ∧ Root cfg' = Root cfg).
  { unfold sw, stateArgsSpec, stateDirSpec.
    destruct (InKubernetes cfg && nonEmpty (KubeSecret cfg)); simpl.
    - destruct (is_empty (StateDir cfg)) eqn:Hd; simpl; eexists; split; try done.
      by rewrite setStateDir_same.
    - destruct (nonEmpty (StateDir cfg)); simpl; eexists; split; try done;
        by rewrite setStateDir_same. }
  destruct Hsw as (cfg' & -> & Hcfg' & Hmode & Hroot).
  fold (stateArgsSpec cfg). fold (stateDirSpec cfg).
  assert (Hlater : SOCKSProxyAddr cfg' = SOCKSProxyAddr cfg
                   ∧ HTTPProxyAddr cfg' = HTTPProxyAddr cfg
                   ∧ TailscaledConfigFilePath cfg' = TailscaledConfigFilePath cfg
                   ∧ DaemonExtraArgs cfg' = DaemonExtraArgs cfg)
    by (by rewrite Hcfg').
  destruct Hlater as (Hsocks & Hhttp & Hconf & Hextra).
  rewrite <- Hcfg'.
  cbv beta iota. rewrite Hmode, Hroot, Hsocks, Hhttp, Hconf, Hextra.
  destruct (UserspaceMode cfg) eqn:Hu.
  - simpl. split; [by left|]. split; [|done].
    repeat match goal with |- context [if ?b then _ else _] => destruct b end;
      parts_of_args.
  - destruct (containerboot.ensureTunFile _ _ _ _ _ _) as [[err|] fs'] eqn:Htun.
    + done.
    + simpl. split; [by right|]. split; [|done].
      repeat match goal with |- context [if ?b then _ else _] => destruct b end;
        parts_of_args.
Qed.

End Tailscaled.

(** C1, counterexample: with [TS_USERSPACE=false] on a read-only root
    without /dev/net, [tailscaledArgs] returns no argv: the process exits
    in [log.Fatalf]. *)
Lemma tailscaledArgs_exits_without_tun :
  fst (tailscaledArgs ReadOnlyRoot.osStat ReadOnlyRoot.isNotExist
         ReadOnlyRoot.osMkdirAll ReadOnlyRoot.unixMknod
         ReadOnlyRoot.stringsFields ReadOnlyRoot.cfg ())
    = Fatalf "ensuring that /dev/net/tun exists: %v" (External ReadOnlyRoot.EROFS)
  ∧ ¬ ∃ argv, fst (tailscaledArgs ReadOnlyRoot.osStat ReadOnlyRoot.isNotExist
                     ReadOnlyRoot.osMkdirAll ReadOnlyRoot.unixMknod
                     ReadOnlyRoot.stringsFields ReadOnlyRoot.cfg ())
                = Returns argv.
Proof.
  assert (H : fst (tailscaledArgs ReadOnlyRoot.osStat ReadOnlyRoot.isNotExist
         ReadOnlyRoot.osMkdirAll ReadOnlyRoot.unixMknod
         ReadOnlyRoot.stringsFields ReadOnlyRoot.cfg ())
    = Fatalf "ensuring that /dev/net/tun exists: %v" (External ReadOnlyRoot.EROFS))
    by (by vm_compute).
  split; [done|]. intros [argv Hargv]. by rewrite H in Hargv.
Qed.

(** C2: when [TailscaledConfigFilePath] is empty, [validate] returns an
    error if and only if one of these holds: a proxy destination, a tailnet
    target IP or a tailnet target FQDN is set in userspace mode; both
    tailnet targets are set; proxying of cluster traffic via ingress is
    allowed in userspace mode, without a serve config, or without a pod
    IP. *)
Theorem validate_without_configfile {E : Type}
    (conffileLoad : string → option (error E)) (s : settings) :
  TailscaledConfigFilePath s = "" →
  validate conffileLoad s ≠ None ↔
    (ProxyTo s ≠ "" ∧ UserspaceMode s = true)
    ∨ (TailnetTargetIP s ≠ "" ∧ UserspaceMode s = true)
    ∨ (TailnetTargetFQDN s ≠ "" ∧ UserspaceMode s = true)
    ∨ (TailnetTargetIP s ≠ "" ∧ TailnetTargetFQDN s ≠ "")
    ∨ (AllowProxyingClusterTrafficViaIngress s = true ∧ UserspaceMode s = true)
    ∨ (AllowProxyingClusterTrafficViaIngress s = true ∧ ServeConfigPath s = "")
    ∨ (AllowProxyingClusterTrafficViaIngress s = true ∧ PodIP s = "").
Proof.
  intros Hpath. unfold validate. rewrite Hpath. simpl.
  destruct (ProxyTo s), (TailnetTargetIP s), (TailnetTargetFQDN s),
    (ServeConfigPath s), (PodIP s), (UserspaceMode s),
    (AllowProxyingClusterTrafficViaIngress s); simpl;
    intuition congruence.
Qed.

Lemma validate_without_configfile_witness :
  TailscaledConfigFilePath userspaceProxy = ""
  ∧ (validate (E:=Empty_set) (fun _ => None) userspaceProxy ≠ None ↔
      (ProxyTo userspaceProxy ≠ "" ∧ UserspaceMode userspaceProxy = true)
      ∨ (TailnetTargetIP userspaceProxy ≠ "" ∧ UserspaceMode userspaceProxy = true)
      ∨ (TailnetTargetFQDN userspaceProxy ≠ "" ∧ UserspaceMode userspaceProxy = true)
      ∨ (TailnetTargetIP userspaceProxy ≠ "" ∧ TailnetTargetFQDN userspaceProxy ≠ "")
      ∨ (AllowProxyingClusterTrafficViaIngress userspaceProxy = true
         ∧ UserspaceMode userspaceProxy = true)
      ∨ (AllowProxyingClusterTrafficViaIngress userspaceProxy = true
         ∧ ServeConfigPath userspaceProxy = "")
      ∨ (AllowProxyingClusterTrafficViaIngress userspaceProxy = true
         ∧ PodIP userspaceProxy = "")).
Proof.
  split; [reflexivity|].
  apply (validate_without_configfile (fun _ => None) userspaceProxy).
  reflexivity.
Defined.

Lemma Getenv_insert (env : gmap string string) (name v : string) :
  Getenv (<[name:=v]> env) name = v.
Proof. unfold Getenv, LookupEnv. by rewrite lookup_insert_eq. Qed.

Lemma Getenv_delete (env : gmap string string) (name : string) :
  Getenv (delete name env) name = "".
Proof. unfold Getenv, LookupEnv. by rewrite lookup_delete_eq. Qed.

(** C7: in every environment [defaultBool] returns what
    [strconv.ParseBool] parses from the value of the variable when the
    parse succeeds and [defVal] otherwise, so also when the variable is
    unset, empty or holds no boolean; [main] hence has [UserspaceMode]
    true and [AuthOnce] false when TS_USERSPACE and TS_AUTH_ONCE are
    absent. *)
Theorem defaultBool_parses_or_defaults {E : Type}
    (env : gmap string string) (name v : string) (defVal : bool) :
  defaultBool (E:=E) env name defVal
    = match Strconv.ParseBool (E:=E) (Getenv env name) with
      | (ret, None) => ret
      | (_, Some _) => defVal
      end
  ∧ defaultBool (E:=E) (<[name:=v]> env) name defVal
    = (if bool_decide (v ∈ ["1"; "t"; "T"; "TRUE"; "true"; "True"]) then true
       else if bool_decide (v ∈ ["0"; "f"; "F"; "FALSE"; "false"; "False"]) then false
       else defVal)
  ∧ defaultBool (E:=E) (delete name env) name defVal = defVal
  ∧ defaultBool (E:=E) (<[name:=""]> env) name defVal = defVal
  ∧ UserspaceMode (mainSettings (E:=E) (delete "TS_USERSPACE" env)) = true
  ∧ AuthOnce (mainSettings (E:=E) (delete "TS_AUTH_ONCE" env)) = false.
Proof.
  split; [by unfold defaultBool; destruct (Strconv.ParseBool _) as [? [?|]]|].
  split.
  { unfold defaultBool. rewrite Getenv_insert. unfold Strconv.ParseBool.
    by repeat case_bool_decide. }
  split; [by unfold defaultBool; rewrite Getenv_delete|].
  split; [by unfold defaultBool; rewrite Getenv_insert|].
  split; simpl; unfold defaultBool; by rewrite Getenv_delete.
Qed.

End ContainerbootProofs.

(** * Properties of the stat cache *)

Module StatCacheProofs.
Import GoError webdavfs.

Section StatCache.
Context {FileInfo E W : Type}.
Implicit Types (c : statCache FileInfo) (name : string) (w : W).
Implicit Types (fetch : string → W → (FileInfo * option (error E)) * W).

(** On a hit the callback plays no part: the result is the same for
    every callback, and the state the callback works on is returned as
    it was given. *)
Lemma getOrFetch_hit c name item fetch w :
  cache c !! name = Some item →
  getOrFetch c name fetch w = ((item, None), c, w).
Proof. unfold getOrFetch, cacheGet. by intros ->. Qed.

Lemma getOrFetch_miss c name fetch w :
  cache c !! name = None →
  getOrFetch c name fetch w
  = let '((fi, err), w') := fetch name w in
    ((fi, err), match err with None => cacheSet c name fi | Some _ => c end, w').
Proof. unfold getOrFetch, cacheGet. by intros ->. Qed.

(** C3: if the cache holds an entry for [name], [getOrFetch] returns it
    with a nil error and does not call [fetch] (whatever the callback
    is, the result is the same and the state it works on is untouched);
    if there is no entry and [fetch] fails, the error is returned and the
    cache is unchanged; if [fetch] succeeds, its result is stored under
    [name] and returned. *)
Theorem getOrFetch_cached_or_fetched c name fetch w :
  match cache c !! name with
  | Some item =>
      getOrFetch c name fetch w = ((item, None), c, w)
      ∧ ∀ fetch', getOrFetch c name fetch' w = getOrFetch c name fetch w
  | None =>
      match fetch name w with
      | ((fi, Some err), w') =>
          getOrFetch c name fetch w = ((fi, Some err), c, w')
      | ((fi, None), w') =>
          ∃ c', getOrFetch c name fetch w = ((fi, None), c', w')
                ∧ cache c' = <[name:=fi]> (cache c)
                ∧ cache c' !! name = Some fi
      end
  end.
Proof.
  destruct (cache c !! name) as [item|] eqn:Hget.
  - split; [by apply getOrFetch_hit|].
    intros fetch'. by rewrite !(getOrFetch_hit _ _ item).
  - rewrite getOrFetch_miss by done.
    destruct (fetch name w) as [[fi [err|]] w']; [done|].
    eexists. split; [done|]. simpl. split; [done|]. apply lookup_insert_eq.
Qed.

End StatCache.

End StatCacheProofs.

(** * Properties of the Service reconciler *)

Module OperatorProofs.
Import GoString GoError operator.

(** *** [slices.Index] *)

Lemma slicesIndex_range (s : list string) (v : string) :
  (-1 ≤ slicesIndex s v < Z.of_nat (length s))%Z.
Proof.
  induction s as [|x s IH]; simpl; [lia|].
  destruct (String.eqb v x); [lia|].
  destruct (Z.ltb_spec (slicesIndex s v) 0); lia.
Qed.



Section Reconciler.
Context `{Names} {E W : Type} `{!Outside E W}.
Variable isDefaultLoadBalancer : bool.

Local Abbreviation Reconcile := (Reconcile isDefaultLoadBalancer).

(** C5: when the Get of the Service fails, [Reconcile] makes no other
    call (no cleanup, no provisioning) and leaves the managed proxies as
    they are; it returns the empty result, with a nil error when the
    error of the Get is a NotFound and with that error wrapped
    otherwise. *)
Theorem Reconcile_get_fails (req : NamespacedName) (st : state) (err : error E) :
  fst (clientGet req (outside st)) = inr err →
  fst (Reconcile req st)
    = (emptyResult,
       if IsNotFound err then None
       else Some (Wrap "failed to get svc: %w" [] err))
  ∧ calls (snd (Reconcile req st)) = calls st ++ [CallGet req]
  ∧ managedIngressProxies (snd (Reconcile req st)) = managedIngressProxies st
  ∧ managedEgressProxies (snd (Reconcile req st)) = managedEgressProxies st.
Proof.
  intros Hget. unfold operator.Reconcile, bind, outcall.
  destruct (clientGet req (outside st)) as [r w]. simpl in Hget. subst r.
  by destruct (IsNotFound err).
Qed.

(** C8 (as amended): a Service whose two tailnet target annotations both
    have a value that is not empty gets, first in its violations, the
    literal ["only one of annotations %s and %s can be set"] with its verbs
    unformatted, and then the two annotation names as two more
    elements. *)
Theorem validateService_both_targets (svc : Service) :
  index (Annotations svc) AnnotationTailnetTargetIP ≠ "" →
  index (Annotations svc) AnnotationTailnetTargetFQDN ≠ "" →
  ∃ rest,
    validateService svc
    = ["only one of annotations %s and %s can be set";
       AnnotationTailnetTargetIP; AnnotationTailnetTargetFQDN] ++ rest.
Proof.
  intros Hip Hfqdn. unfold validateService.
  destruct (index (Annotations svc) AnnotationTailnetTargetIP); [done|].
  destruct (index (Annotations svc) AnnotationTailnetTargetFQDN) eqn:Hf; [done|].
  simpl. destruct (negb _); eauto.
Qed.


End Reconciler.

(** *** The reconciler on the small cluster *)

Import operator.Fake.

Lemma Reconcile_get_fails_witness :
  fst (clientGet web (outside (Fake.start Fake.emptyCluster)))
    = inr (External Fake.NotFound)
  ∧ fst (Reconcile false web (Fake.start Fake.emptyCluster)) = (emptyResult, None)
  ∧ calls (snd (Reconcile false web (Fake.start Fake.emptyCluster))) = [CallGet web]
  ∧ managedIngressProxies (snd (Reconcile false web (Fake.start Fake.emptyCluster))) = ∅
  ∧ managedEgressProxies (snd (Reconcile false web (Fake.start Fake.emptyCluster))) = ∅.
Proof.
  split; [reflexivity|].
  exact (Reconcile_get_fails false web (Fake.start Fake.emptyCluster)
           (External Fake.NotFound) eq_refl).
Defined.

Lemma validateService_both_targets_witness :
  index (Annotations Fake.twoTargets) AnnotationTailnetTargetIP ≠ ""
  ∧ index (Annotations Fake.twoTargets) AnnotationTailnetTargetFQDN ≠ ""
  ∧ ∃ rest,
      validateService Fake.twoTargets
      = ["only one of annotations %s and %s can be set";
         "tailscale.com/tailnet-ip"; "tailscale.com/tailnet-fqdn"] ++ rest.
Proof.
  assert (Hip : index (Annotations Fake.twoTargets) AnnotationTailnetTargetIP ≠ "")
    by (vm_compute; discriminate).
  assert (Hfqdn : index (Annotations Fake.twoTargets) AnnotationTailnetTargetFQDN ≠ "")
    by (vm_compute; discriminate).
  split; [exact Hip|]. split; [exact Hfqdn|].
  exact (validateService_both_targets Fake.twoTargets Hip Hfqdn).
Defined.

(** C8, counterexample: a Service that carries both annotations, the one
    of the name with an empty value, has no violation at all: the code
    tests the values, not the presence of the annotations. *)
Lemma validateService_empty_target :
  is_Some (Annotations Fake.emptyTarget !! AnnotationTailnetTargetIP)
  ∧ is_Some (Annotations Fake.emptyTarget !! AnnotationTailnetTargetFQDN)
  ∧ validateService (E:=Fake.apiError) (W:=Fake.cluster) Fake.emptyTarget = []
  ∧ "only one of annotations %s and %s can be set"
    ∉ validateService (E:=Fake.apiError) (W:=Fake.cluster) Fake.emptyTarget.
Proof.
  assert (Hnone : validateService (E:=Fake.apiError) (W:=Fake.cluster) Fake.emptyTarget = [])
    by reflexivity.
  split; [by eexists|]. split; [by eexists|]. split; [exact Hnone|].
  rewrite Hnone. apply not_elem_of_nil.
Qed.

(** A reconcile of a Service under deletion whose finalizers hold
    [FinalizerName] twice: the update drops the first of the two. *)
Example Reconcile_deleted_service :
  fst (Reconcile false web (Fake.start (Fake.withService Fake.deleted)))
    = (emptyResult, None)
  ∧ ∃ labels,
      calls (snd (Reconcile false web (Fake.start (Fake.withService Fake.deleted))))
      = [CallGet web; CallCleanup labels;
         CallUpdate (setFinalizers Fake.deleted
                       ["example.com/a"; "example.com/b"; "tailscale.com/finalizer"])].
Proof. split; [by vm_compute|]. eexists. by vm_compute. Qed.

End OperatorProofs.

(** * The shape of the paths of [path.Clean], [Join] and [CleanAndSplit] *)

Module CleanFormProofs.
Import GoString Path CleanForm.

Lemma isSlash_true (c : ascii) : isSlash c = true ↔ c = "/"%char.
Proof. apply Ascii.eqb_eq. Qed.

Lemma isSlash_false (c : ascii) : isSlash c = false ↔ c ≠ "/"%char.
Proof. apply Ascii.eqb_neq. Qed.

Lemma isDot_true (c : ascii) : isDot c = true ↔ c = "."%char.
Proof. apply Ascii.eqb_eq. Qed.

(** *** Joined elements *)

Lemma joinBytes_cons (e : list ascii) (elems : list (list ascii)) :
  elems ≠ [] → joinBytes (e :: elems) = e ++ "/"%char :: joinBytes elems.
Proof. by destruct elems. Qed.

Lemma joinBytes_snoc (elems : list (list ascii)) (e : list ascii) :
  elems ≠ [] → joinBytes (elems ++ [e]) = joinBytes elems ++ "/"%char :: e.
Proof.
  induction elems as [|e0 elems IH]; [done|]. intros _.
  destruct elems as [|e1 elems]; [done|].
  change ((e0 :: e1 :: elems) ++ [e]) with (e0 :: ((e1 :: elems) ++ [e])).
  rewrite joinBytes_cons by done. rewrite IH by done.
  rewrite (joinBytes_cons e0 (e1 :: elems)) by done.
  by rewrite <- app_assoc.
Qed.

Lemma render_nil (rooted : bool) : render rooted [] = if rooted then ["/"%char] else [].
Proof. unfold render. simpl. by rewrite app_nil_r. Qed.

Lemma render_snoc_first (rooted : bool) (e : list ascii) :
  render rooted [e] = render rooted [] ++ e.
Proof. by rewrite render_nil. Qed.

Lemma render_snoc (rooted : bool) (elems : list (list ascii)) (e : list ascii) :
  elems ≠ [] → render rooted (elems ++ [e]) = render rooted elems ++ "/"%char :: e.
Proof. intros ?. unfold render. by rewrite joinBytes_snoc, app_assoc. Qed.

Lemma render_length_snoc (rooted : bool) (elems : list (list ascii)) (e : list ascii) :
  length (render rooted elems) + length e ≤ length (render rooted (elems ++ [e])).
Proof.
  destruct elems as [|e0 elems].
  - simpl app. rewrite render_snoc_first, length_app. lia.
  - rewrite render_snoc by done. rewrite length_app. simpl. lia.
Qed.

Lemma render_length_app (rooted : bool) (elems more : list (list ascii)) :
  length (render rooted elems) ≤ length (render rooted (elems ++ more)).
Proof.
  induction more as [|e more IH] using rev_ind; [by rewrite app_nil_r|].
  rewrite app_assoc. pose proof (render_length_snoc rooted (elems ++ more) e). lia.
Qed.

(** *** The inner loops of [path.Clean] *)

(** Backtracking over an element that follows a separator stops behind the
    separator. *)
Lemma backtrack_to_slash (dd : nat) (l base : list ascii) (x : ascii) :
  "/"%char ∉ l → x ≠ "/"%char → dd ≤ length base →
  backtrack dd x (l ++ "/"%char :: base) = base.
Proof.
  revert x. induction l as [|c l IH]; intros x Hl Hx Hdd.
  - simpl app. simpl. apply isSlash_false in Hx. rewrite Hx.
    replace (dd <? S (length base)) with true by (symmetry; apply Nat.ltb_lt; lia).
    simpl. destruct base as [|b base]; [done|]. simpl.
    by rewrite andb_false_r.
  - apply not_elem_of_cons in Hl as [Hc Hl].
    change ((c :: l) ++ "/"%char :: base) with (c :: (l ++ "/"%char :: base)).
    simpl. apply isSlash_false in Hx. rewrite Hx.
    replace (dd <? S (length (l ++ "/"%char :: base))) with true
      by (symmetry; apply Nat.ltb_lt; rewrite length_app; simpl; lia).
    simpl. by apply IH.
Qed.

(** Backtracking over the only element stops at the index [dd]. *)
Lemma backtrack_to_dotdot (l base : list ascii) (x : ascii) :
  "/"%char ∉ l → x ≠ "/"%char →
  backtrack (length base) x (l ++ base) = base.
Proof.
  revert x. induction l as [|c l IH]; intros x Hl Hx.
  - simpl app. destruct base as [|b base]; [done|]. simpl.
    replace (S (length base) <? S (length base)) with false
      by (symmetry; apply Nat.ltb_ge; lia).
    done.
  - apply not_elem_of_cons in Hl as [Hc Hl].
    change ((c :: l) ++ base) with (c :: (l ++ base)).
    simpl. apply isSlash_false in Hx. rewrite Hx.
    replace (length base <? S (length (l ++ base))) with true
      by (symmetry; apply Nat.ltb_lt; rewrite length_app; lia).
    simpl. by apply IH.
Qed.

(** Copying an element moves the bytes up to the next slash into the
    buffer. *)
Lemma copyElem_elem (rest rout rest' rout' : list ascii) :
  copyElem rest rout = (rest', rout') →
  ∃ e, rest = e ++ rest' ∧ ("/"%char ∉ e) ∧ endsElem rest' = true
       ∧ rout' = rev e ++ rout.
Proof.
  revert rout. induction rest as [|c rest IH]; simpl; intros rout.
  - intros [= <- <-]. exists []. by split_and!; [|apply not_elem_of_nil| |].
  - destruct (isSlash c) eqn:Hc.
    + intros [= <- <-]. exists []. split_and!; [done|apply not_elem_of_nil|by simpl|done].
    + intros (e & -> & He & Hends & ->)%IH.
      exists (c :: e). split_and!; [done| |done|].
      * apply not_elem_of_cons. split; [|done]. intros <-. by apply isSlash_false in Hc.
      * simpl. by rewrite <- app_assoc.
Qed.

(** *** The invariant of the main loop *)

Lemma render_longer (rooted : bool) (elems more : list (list ascii)) :
  Forall (λ e, e ≠ []) more → more ≠ [] →
  length (render rooted elems) < length (render rooted (elems ++ more)).
Proof.
  intros Hall Hmore. destruct (exists_last Hmore) as (m & e & ->).
  apply Forall_app in Hall as [_ He]. rewrite Forall_singleton in He.
  rewrite app_assoc.
  pose proof (render_length_snoc rooted (elems ++ m) e).
  pose proof (render_length_app rooted elems m).
  destruct e; [done|]. simpl length in *. lia.
Qed.

Lemma not_elem_of_stdlib_rev {A} (x : A) (l : list A) : x ∉ rev l → x ∉ l.
Proof. intros Hnot Hin. apply Hnot. by apply list_elem_of_In, in_rev, list_elem_of_In in Hin. Qed.

Lemma nameBytes_nonempty (names : list (list ascii)) :
  Forall nameBytes names → Forall (λ e, e ≠ []) names.
Proof. intros Hall. eapply Forall_impl; [exact Hall|]. by intros e [? _]. Qed.

Lemma dotdots_nonempty (k : nat) : Forall (λ e, e ≠ []) (replicate k dotdotElem).
Proof. apply Forall_replicate. done. Qed.

(** The buffer is longer than the root exactly when it holds an element. *)
Lemma render_root_length (rooted : bool) (elems : list (list ascii)) :
  Forall (λ e, e ≠ []) elems →
  (rooted && negb (length (render rooted elems) =? 1))
  || (negb rooted && negb (length (render rooted elems) =? 0))
  = negb (bool_decide (elems = [])).
Proof.
  intros Helems. case_bool_decide as Hnil.
  - subst. rewrite render_nil. by destruct rooted.
  - pose proof (render_longer rooted [] elems Helems Hnil) as Hlen.
    rewrite render_nil in Hlen. simpl app in Hlen.
    destruct rooted; simpl in *.
    + rewrite orb_false_r. apply negb_true_iff, Nat.eqb_neq. lia.
    + apply negb_true_iff, Nat.eqb_neq. lia.
Qed.

(** A copied element is a name: it is neither [.] nor [..], which the
    cases before it of the switch take. *)
Lemma copied_is_name (c : ascii) (e rest' : list ascii) :
  isSlash c = false →
  isDot c && endsElem (e ++ rest') = false →
  isDot c && match e ++ rest' with
             | c1 :: rest2 => isDot c1 && endsElem rest2
             | [] => false
             end = false →
  "/"%char ∉ e → endsElem rest' = true →
  nameBytes (c :: e).
Proof.
  intros Hc Hdot Hdotdot He Hends. split_and!; [done| | |].
  - apply not_elem_of_cons. split; [|done]. intros <-. by apply isSlash_false in Hc.
  - intros [= -> ->]. simpl in Hdot. by rewrite Hends in Hdot.
  - unfold dotdotElem. intros [= -> ->]. simpl in Hdotdot. by rewrite Hends in Hdotdot.
Qed.

Lemma cleanLoop_cleanInv (fuel : nat) (rooted : bool) (rest rout : list ascii) (dd : nat) :
  cleanInv rooted rout dd →
  ∃ dd', cleanInv rooted (cleanLoop fuel rooted rest rout dd) dd'.
Proof.
  revert rest rout dd. induction fuel as [|fuel IH]; intros rest rout dd Hinv; [by eauto|].
  destruct rest as [|c rest1]; [by eauto|]. simpl.
  destruct (isSlash c) eqn:Hc; [by apply IH|].
  destruct (isDot c && endsElem rest1) eqn:Hdot; [by apply IH|].
  destruct (isDot c && match rest1 with
                       | c1 :: rest2 => isDot c1 && endsElem rest2
                       | [] => false
                       end) eqn:Hdotdot.
  - (* .. element *)
    destruct Hinv as (k & names & -> & Hk & Hnames & ->).
    rewrite length_rev.
    destruct (_ <? _) eqn:Hlt.
    + (* can backtrack: the last name goes *)
      apply Nat.ltb_lt in Hlt.
      destruct (decide (names = [])) as [->|Hne0].
      { rewrite app_nil_r in Hlt. lia. }
      destruct (exists_last Hne0) as (names' & e & ->). clear Hne0.
      rename names' into names.
      apply Forall_app in Hnames as [Hnames He]. rewrite Forall_singleton in He.
      destruct He as (Hne & Hslash & _).
      apply (IH _ _ (length (render rooted (replicate k dotdotElem)))).
      exists k, names. split_and!; [|done|done|done].
      rewrite app_assoc.
      destruct (decide (replicate k dotdotElem ++ names = [])) as [Hnil|Hnil].
      * rewrite Hnil. simpl app. rewrite render_snoc_first, rev_app_distr.
        apply app_eq_nil in Hnil as [Hk0 ->]. rewrite Hk0.
        destruct (rev e) as [|last re] eqn:Hre.
        { apply (f_equal (@rev _)) in Hre. rewrite rev_involutive in Hre. done. }
        rewrite <- (length_rev (render rooted [])).
        apply (f_equal (@rev _)) in Hre. rewrite rev_involutive in Hre. simpl in Hre.
        subst e. apply not_elem_of_app in Hslash as [Hre Hlast].
        apply not_elem_of_cons in Hlast as [Hlast _].
        change ((last :: re) ++ rev (render rooted [])) with (last :: (re ++ rev (render rooted []))).
        cbv iota. apply backtrack_to_dotdot; [|done].
        by apply not_elem_of_stdlib_rev.
      * rewrite render_snoc by done. rewrite rev_app_distr. simpl rev.
        destruct (rev e) as [|last re] eqn:Hre.
        { apply (f_equal (@rev _)) in Hre. rewrite rev_involutive in Hre. done. }
        apply (f_equal (@rev _)) in Hre. rewrite rev_involutive in Hre. simpl in Hre.
        subst e. apply not_elem_of_app in Hslash as [Hre Hlast].
        apply not_elem_of_cons in Hlast as [Hlast _].
        rewrite <- app_assoc. simpl app. cbv iota.
        apply backtrack_to_slash; [|done|].
        -- by apply not_elem_of_stdlib_rev.
        -- rewrite length_rev. apply render_length_app.
    + apply Nat.ltb_ge in Hlt.
      assert (names = []) as ->.
      { destruct (decide (names = [])) as [|Hne]; [done|].
        pose proof (render_longer rooted (replicate k dotdotElem) names
                      (nameBytes_nonempty _ Hnames) Hne). lia. }
      rewrite app_nil_r.
      destruct rooted; simpl negb; cbv iota.
      * apply (IH _ _ (length (render true (replicate k dotdotElem)))).
        exists k, []. by rewrite app_nil_r.
      * (* not rooted: one more .. element *)
        apply IH. exists (S k), []. rewrite app_nil_r. split_and!; [|done|done|].
        -- destruct k as [|k]; [by vm_compute|].
           assert (0 < length (render false (replicate (S k) dotdotElem))) as Hpos.
           { pose proof (render_longer false [] (replicate (S k) dotdotElem)
                           (dotdots_nonempty _) ltac:(done)) as Hl.
             rewrite render_nil in Hl. exact Hl. }
           apply Nat.ltb_lt in Hpos. rewrite Hpos.
           rewrite (replicate_S_end (S k)), render_snoc by done.
           by rewrite rev_app_distr.
        -- destruct k as [|k]; [by vm_compute|].
           assert (0 < length (render false (replicate (S k) dotdotElem))) as Hpos.
           { pose proof (render_longer false [] (replicate (S k) dotdotElem)
                           (dotdots_nonempty _) ltac:(done)) as Hl.
             rewrite render_nil in Hl. exact Hl. }
           apply Nat.ltb_lt in Hpos. rewrite Hpos.
           rewrite (replicate_S_end (S k)), render_snoc by done.
           simpl. rewrite length_rev, length_app. simpl. lia.
  - (* real path element *)
    destruct Hinv as (k & names & -> & Hk & Hnames & ->).
    rewrite length_rev.
    rewrite render_root_length
      by (apply Forall_app; split; [apply dotdots_nonempty|by apply nameBytes_nonempty]).
    destruct (copyElem rest1 _) as [rest' rout2] eqn:Hcp.
    apply copyElem_elem in Hcp as (e & -> & He & Hends & ->).
    pose proof (copied_is_name c e rest' Hc Hdot Hdotdot He Hends) as Hname.
    apply (IH _ _ (length (render rooted (replicate k dotdotElem)))).
    exists k, (names ++ [c :: e]). split_and!; [|done| |done].
    + rewrite app_assoc. case_bool_decide as Hnil; simpl negb; cbv iota.
      * rewrite Hnil. simpl app. rewrite render_snoc_first, rev_app_distr.
        simpl. by rewrite <- app_assoc.
      * rewrite render_snoc by done. rewrite rev_app_distr. simpl.
        by rewrite <- !app_assoc.
    + apply Forall_app. split; [done|]. by apply Forall_singleton.
Qed.

(** *** The form of a cleaned path *)

Lemma cleanInv_start (rooted : bool) :
  cleanInv rooted (if rooted then ["/"%char] else []) (if rooted then 1 else 0).
Proof. exists 0, []. by destruct rooted. Qed.

(** [path.Clean] returns [.], or the root (if the path is rooted), some
    [..] elements (if it is not) and then names, joined by slashes. *)
Lemma CleanBytes_form (path : list ascii) :
  CleanBytes path = ["."%char]
  ∨ ∃ rooted k names,
      CleanBytes path = render rooted (replicate k dotdotElem ++ names)
      ∧ (rooted = true → k = 0)
      ∧ (head path = Some "/"%char → rooted = true)
      ∧ Forall nameBytes names.
Proof.
  destruct path as [|c0 path1]; [by left|].
  unfold CleanBytes.
  set (out := if isSlash c0 then _ else _).
  assert (∃ dd, cleanInv (isSlash c0) out dd) as (dd & k & names & Hout & Hk & Hnames & _).
  { unfold out. pose proof (cleanInv_start (isSlash c0)) as Hstart.
    destruct (isSlash c0); by eapply cleanLoop_cleanInv. }
  destruct (length out =? 0) eqn:Hlen; [by left|]. right.
  exists (isSlash c0), k, names. rewrite Hout, rev_involutive.
  split_and!; [done|done| |done].
  simpl. intros [= ->]. done.
Qed.

(** *** Strings and bytes *)

Lemma of_bytes_app (a b : list ascii) : of_bytes (a ++ b) = of_bytes a +:+ of_bytes b.
Proof. induction a as [|c a IH]; simpl; [done|]. by rewrite IH. Qed.

Lemma of_bytes_joinBytes (elems : list (list ascii)) :
  of_bytes (joinBytes elems) = Strings.Join (map of_bytes elems) "/".
Proof.
  induction elems as [|e elems IH]; [done|].
  destruct elems as [|e' elems]; [done|].
  rewrite joinBytes_cons by done. rewrite of_bytes_app.
  change (of_bytes ("/"%char :: ?l)) with ("/" +:+ of_bytes l). by rewrite IH.
Qed.

Lemma name_of_bytes (e : list ascii) : name (of_bytes e) ↔ nameBytes e.
Proof. unfold name. by rewrite SharedProofs.bytes_of_bytes. Qed.

Lemma Forall_name_of_bytes (elems : list (list ascii)) :
  Forall nameBytes elems → Forall name (map of_bytes elems).
Proof.
  intros Hall. apply Forall_map. eapply Forall_impl; [exact Hall|].
  intros e. apply name_of_bytes.
Qed.

(** The form of what [Join] returns, on bytes. *)
Lemma Join_form (parts : list string) :
  ∃ names,
    shared.Join parts = of_bytes ("/"%char :: joinBytes names)
    ∧ Forall nameBytes names.
Proof.
  rewrite SharedProofs.shared_Join_unfold, SharedProofs.Join_rooted.
  destruct (SharedProofs.joinLoop_prefix parts ["/"%char]) as [joined ->].
  change (["/"%char] ++ joined) with ("/"%char :: joined).
  destruct (CleanBytes_form ("/"%char :: joined))
    as [Hdot|(rooted & k & names & Hform & Hk & Hrooted & Hnames)].
  { destruct (SharedProofs.CleanBytes_rooted joined) as [rest Hrest]. congruence. }
  rewrite (Hrooted eq_refl) in *. rewrite (Hk eq_refl) in Hform. simpl app in Hform.
  exists names. split; [|done]. by rewrite Hform.
Qed.

(** X1: whatever the parts, [Join] returns a slash followed by names joined
    by slashes: the path is rooted, and has no empty element, no [.], no
    [..] and, the root apart, no trailing slash. *)
Theorem Join_is_rooted_names (parts : list string) :
  ∃ names,
    shared.Join parts = "/" +:+ Strings.Join names "/"
    ∧ Forall name names.
Proof.
  destruct (Join_form parts) as (names & -> & Hnames).
  exists (map of_bytes names). split; [|by apply Forall_name_of_bytes].
  by rewrite <- of_bytes_joinBytes.
Qed.

(** *** Splitting *)

Lemma SplitByte_pieces (s : list ascii) (sep : ascii) :
  Forall (λ piece, sep ∉ piece) (Strings.SplitByte s sep).
Proof.
  induction s as [|c s IH]; simpl.
  - apply Forall_singleton, not_elem_of_nil.
  - destruct (Ascii.eqb_spec c sep) as [->|Hc].
    + apply Forall_cons. split; [apply not_elem_of_nil|done].
    + destruct (Strings.SplitByte s sep) as [|piece pieces].
      * apply Forall_singleton. apply not_elem_of_cons. split; [done|apply not_elem_of_nil].
      * apply Forall_cons in IH as [Hpiece Hpieces]. apply Forall_cons. split; [|done].
        apply not_elem_of_cons. by split.
Qed.

Lemma SplitByte_first (c : ascii) (s : list ascii) (sep : ascii) :
  c ≠ sep → ∃ piece pieces, Strings.SplitByte (c :: s) sep = (c :: piece) :: pieces.
Proof.
  intros Hc. simpl. destruct (Ascii.eqb_spec c sep); [done|].
  destruct (Strings.SplitByte s sep); eauto.
Qed.

Lemma SplitByte_final (s : list ascii) (sep c : ascii) :
  last s = Some c → c ≠ sep →
  ∃ init piece, Strings.SplitByte s sep = init ++ [piece] ∧ last piece = Some c.
Proof.
  intros Hlast Hc. induction s as [|x s IH]; [done|].
  destruct s as [|y s].
  - simpl in Hlast. injection Hlast as ->. simpl.
    destruct (Ascii.eqb_spec c sep); [done|]. by exists [], [c].
  - rewrite last_cons_cons in Hlast. destruct (IH Hlast) as (init & piece & Hs & Hpiece).
    change (Strings.SplitByte (x :: y :: s) sep)
      with (if Ascii.eqb x sep then [] :: Strings.SplitByte (y :: s) sep
            else match Strings.SplitByte (y :: s) sep with
                 | piece :: pieces => (x :: piece) :: pieces
                 | [] => [[x]]
                 end).
    rewrite Hs. destruct (Ascii.eqb x sep).
    + by exists ([] :: init), piece.
    + destruct init as [|i init]; simpl.
      * exists [], (x :: piece). split; [done|].
        destruct piece; [done|]. by rewrite last_cons_cons.
      * by exists ((x :: i) :: init), piece.
Qed.

(** Splitting a concatenation: the last piece of the first part and the
    first piece of the second part make one piece. *)
Lemma SplitByte_app (x y : list ascii) (sep : ascii) :
  ∃ ix lx hy ty,
    Strings.SplitByte x sep = ix ++ [lx]
    ∧ Strings.SplitByte y sep = hy :: ty
    ∧ Strings.SplitByte (x ++ y) sep = ix ++ [lx ++ hy] ++ ty.
Proof.
  destruct (SharedProofs.SplitByte_cons y sep) as (hy & ty & Hy).
  induction x as [|c x (ix & lx & hy' & ty' & Hx & Hy' & Hxy)].
  - by exists [], [], hy, ty.
  - rewrite Hy in Hy'. injection Hy' as <- <-.
    change ((c :: x) ++ y) with (c :: (x ++ y)). simpl. rewrite Hx, Hxy.
    destruct (Ascii.eqb c sep).
    + by exists ([] :: ix), lx, hy, ty.
    + destruct ix as [|i ix]; simpl.
      * by exists [], (c :: lx), hy, ty.
      * by exists ((c :: i) :: ix), lx, hy, ty.
Qed.

(** The pieces of a part of a string, its first and last apart, are pieces
    of the string. *)
Lemma SplitByte_middle (a t b : list ascii) (sep : ascii) first mid final :
  Strings.SplitByte t sep = first :: mid ++ [final] →
  ∀ piece, piece ∈ mid → piece ∈ Strings.SplitByte (a ++ t ++ b) sep.
Proof.
  intros Ht piece Hin.
  destruct (SplitByte_app a t sep) as (ia & la & ht & tt & Ha & Ht' & Hat).
  rewrite Ht in Ht'. injection Ht' as <- <-.
  rewrite app_assoc.
  destruct (SplitByte_app (a ++ t) b sep) as (iat & lat & hb & tb & Hat' & Hb & Hatb).
  rewrite Hatb. rewrite Hat in Hat'.
  replace (ia ++ [la ++ first] ++ mid ++ [final])
    with ((ia ++ [la ++ first] ++ mid) ++ [final]) in Hat'
    by (by rewrite <- !app_assoc).
  apply app_inj_tail in Hat' as [<- <-].
  apply elem_of_app. left. apply elem_of_app. right.
  apply elem_of_app. by right.
Qed.

Lemma SplitByte_name (e rest : list ascii) (sep : ascii) :
  sep ∉ e →
  Strings.SplitByte (e ++ sep :: rest) sep = e :: Strings.SplitByte rest sep.
Proof.
  induction e as [|c e IH]; intros He.
  - simpl. by rewrite Ascii.eqb_refl.
  - apply not_elem_of_cons in He as [Hc He].
    change ((c :: e) ++ sep :: rest) with (c :: (e ++ sep :: rest)). simpl.
    rewrite IH by done. apply Ascii.eqb_neq in Hc. rewrite Ascii.eqb_sym in Hc.
    by rewrite Hc.
Qed.

Lemma SplitByte_one (e : list ascii) (sep : ascii) :
  sep ∉ e → Strings.SplitByte e sep = [e].
Proof.
  induction e as [|c e IH]; intros He; [done|].
  apply not_elem_of_cons in He as [Hc He]. simpl. rewrite IH by done.
  apply Ascii.eqb_neq in Hc. rewrite Ascii.eqb_sym in Hc. by rewrite Hc.
Qed.

(** Splitting joined names gives the names back. *)
Lemma SplitByte_joinBytes (names : list (list ascii)) :
  names ≠ [] → Forall nameBytes names →
  Strings.SplitByte (joinBytes names) "/"%char = names.
Proof.
  induction names as [|e names IH]; [done|]. intros _ Hall.
  apply Forall_cons in Hall as [(_ & He & _) Hall].
  destruct names as [|e' names]; [by apply SplitByte_one|].
  rewrite joinBytes_cons by done. rewrite SplitByte_name by done.
  by rewrite IH.
Qed.

(** *** Trimming *)

Lemma trimLeftASCII_cut (pre s cutset : list ascii) :
  Forall (λ c, byte_in c cutset = true) pre →
  Strings.trimLeftASCII (pre ++ s) cutset = Strings.trimLeftASCII s cutset.
Proof.
  induction pre as [|c pre IH]; [done|]. intros [Hc Hpre]%Forall_cons.
  simpl. rewrite Hc. by apply IH.
Qed.

Lemma trimLeftASCII_app (x y cutset : list ascii) :
  Strings.trimLeftASCII (x ++ y) cutset
  = match Strings.trimLeftASCII x cutset with
    | [] => Strings.trimLeftASCII y cutset
    | _ :: _ => Strings.trimLeftASCII x cutset ++ y
    end.
Proof.
  induction x as [|c x IH]; [done|]. simpl.
  destruct (byte_in c cutset); [done|]. done.
Qed.

Lemma TrimBytes_unfold (s cutset : list ascii) :
  cutset ≠ [] →
  Strings.TrimBytes s cutset
  = Strings.trimLeftASCII (Strings.trimRightASCII s cutset) cutset.
Proof. intros Hcut. destruct s; [done|]. by destruct cutset. Qed.

(** A prefix made of bytes of the cutset is trimmed away. *)
Lemma TrimBytes_cut (pre s cutset : list ascii) :
  cutset ≠ [] →
  Forall (λ c, byte_in c cutset = true) pre →
  Strings.TrimBytes (pre ++ s) cutset = Strings.TrimBytes s cutset.
Proof.
  intros Hcut Hpre. rewrite !TrimBytes_unfold by done.
  unfold Strings.trimRightASCII. rewrite rev_app_distr, trimLeftASCII_app.
  destruct (Strings.trimLeftASCII (rev s) cutset) as [|c r] eqn:Hr.
  - rewrite <- (app_nil_r (rev pre)), trimLeftASCII_cut; [done|].
    apply Forall_forall. intros c Hc. rewrite Forall_forall in Hpre. apply Hpre.
    by apply list_elem_of_In, in_rev, list_elem_of_In.
  - rewrite rev_app_distr, rev_involutive. by apply trimLeftASCII_cut.
Qed.

(** A trimmed string is a part of the string. *)
Lemma TrimBytes_infix (s cutset : list ascii) :
  ∃ a b, s = a ++ Strings.TrimBytes s cutset ++ b.
Proof.
  destruct (decide (cutset = [])) as [->|Hcut].
  { exists [], []. rewrite app_nil_r. by destruct s. }
  rewrite TrimBytes_unfold by done.
  destruct (SharedProofs.trimLeftASCII_suffix (rev s) cutset) as [b Hb].
  destruct (SharedProofs.trimLeftASCII_suffix (Strings.trimRightASCII s cutset) cutset)
    as [a Ha].
  exists a, (rev b). rewrite app_assoc, <- Ha. unfold Strings.trimRightASCII.
  rewrite <- rev_app_distr, <- Hb. by rewrite rev_involutive.
Qed.

(** *** [CleanAndSplit] *)

(** The pieces of a trimmed string that is made of names are names. *)
Lemma Split_Trim_names (names : list (list ascii)) :
  Forall nameBytes names →
  let t := Strings.TrimBytes (joinBytes names) (bytes "/.") in
  t = [] ∨ Forall nameBytes (Strings.SplitByte t "/"%char).
Proof.
  intros Hnames. cbv zeta.
  assert (Hhead : ∀ c, head (Strings.TrimBytes (joinBytes names) (bytes "/.")) = Some c
                       → byte_in c (bytes "/.") = false)
    by (intros c; by apply SharedProofs.TrimBytes_head).
  assert (Hlast : ∀ c, last (Strings.TrimBytes (joinBytes names) (bytes "/.")) = Some c
                       → byte_in c (bytes "/.") = false)
    by (intros c; by apply SharedProofs.TrimBytes_last).
  destruct (TrimBytes_infix (joinBytes names) (bytes "/.")) as (a & b & Hinfix).
  remember (Strings.TrimBytes (joinBytes names) (bytes "/.")) as t eqn:Hdef.
  clear Hdef.
  destruct t as [|c0 t0] eqn:Ht; [by left|]. right. rewrite <- Ht in *.
  assert (names ≠ []) as Hne.
  { intros ->. simpl in Hinfix. destruct a; [|done]. by rewrite Ht in Hinfix. }
  pose proof (SplitByte_pieces t "/"%char) as Hpieces.
  assert (Hc0 : byte_in c0 (bytes "/.") = false) by (apply Hhead; by rewrite Ht).
  assert (c0 ≠ "/"%char ∧ c0 ≠ "."%char) as [Hc0s Hc0d].
  { split; intros ->; done. }
  destruct (SplitByte_first c0 t0 "/"%char Hc0s) as (f & rest & Hsplit).
  rewrite <- Ht in Hsplit. rewrite Hsplit in Hpieces |- *.
  apply Forall_cons in Hpieces as [Hf Hrest].
  apply Forall_cons. split.
  { split_and!; [done|done| |]; unfold dotdotElem; congruence. }
  destruct (decide (rest = [])) as [->|Hrestne]; [done|].
  destruct (exists_last Hrestne) as (mid & final & ->).
  apply Forall_app. split.
  - apply Forall_forall. intros piece Hin.
    pose proof (SplitByte_middle a t b "/"%char _ _ _ Hsplit piece Hin) as Hpiece.
    rewrite <- Hinfix, SplitByte_joinBytes in Hpiece by done.
    rewrite Forall_forall in Hnames. by apply Hnames.
  - apply Forall_singleton.
    destruct (last t) as [cl|] eqn:Hcl; [|apply last_None in Hcl; congruence].
    pose proof (Hlast cl eq_refl) as Hclcut.
    assert (cl ≠ "/"%char ∧ cl ≠ "."%char) as [Hcls Hcld].
    { split; intros ->; done. }
    destruct (SplitByte_final t "/"%char cl Hcl Hcls) as (init & final' & Hfin & Hfinal).
    rewrite Hsplit in Hfin.
    change ((c0 :: f) :: mid ++ [final]) with (((c0 :: f) :: mid) ++ [final]) in Hfin.
    apply app_inj_tail in Hfin as [_ <-].
    apply Forall_app in Hrest as [_ Hfinal_slash]. rewrite Forall_singleton in Hfinal_slash.
    split_and!; [by destruct final|done| |].
    + intros ->. simpl in Hfinal. congruence.
    + unfold dotdotElem. intros ->. simpl in Hfinal. congruence.
Qed.

Lemma joinBytes_app (a b : list (list ascii)) :
  a ≠ [] → b ≠ [] →
  joinBytes (a ++ b) = joinBytes a ++ "/"%char :: joinBytes b.
Proof.
  induction a as [|e a IH]; [done|]. intros _ Hb.
  destruct a as [|e' a].
  - simpl app. by rewrite joinBytes_cons.
  - change ((e :: e' :: a) ++ b) with (e :: ((e' :: a) ++ b)).
    rewrite joinBytes_cons by done. rewrite IH by done.
    rewrite (joinBytes_cons e (e' :: a)) by done. by rewrite <- app_assoc.
Qed.

Lemma dotdots_cut (k : nat) :
  Forall (λ c, byte_in c (bytes "/.") = true) (joinBytes (replicate k dotdotElem)).
Proof.
  induction k as [|k IH]; [done|].
  destruct k as [|k]; [by repeat constructor|].
  change (replicate (S (S k)) dotdotElem) with (dotdotElem :: replicate (S k) dotdotElem).
  rewrite joinBytes_cons by done. by repeat constructor.
Qed.

(** A cleaned path is a run of slashes and dots followed by names. *)
Lemma render_cut (rooted : bool) (k : nat) (names : list (list ascii)) :
  ∃ pre, render rooted (replicate k dotdotElem ++ names) = pre ++ joinBytes names
         ∧ Forall (λ c, byte_in c (bytes "/.") = true) pre.
Proof.
  assert (Forall (λ c, byte_in c (bytes "/.") = true) (if rooted then ["/"%char] else []))
    as Hroot by (destruct rooted; by repeat constructor).
  unfold render.
  destruct (decide (names = [])) as [->|Hnames].
  { rewrite app_nil_r.
    exists ((if rooted then ["/"%char] else []) ++ joinBytes (replicate k dotdotElem)).
    split; [simpl; by rewrite app_nil_r|].
    apply Forall_app. split; [done|apply dotdots_cut]. }
  destruct k as [|k].
  { exists (if rooted then ["/"%char] else []). by split. }
  rewrite joinBytes_app by done.
  exists ((if rooted then ["/"%char] else []) ++ joinBytes (replicate (S k) dotdotElem)
          ++ ["/"%char]).
  split; [by rewrite <- !app_assoc|].
  apply Forall_app. split; [done|]. apply Forall_app. split; [apply dotdots_cut|].
  by repeat constructor.
Qed.

(** The trimmed clean path is empty, or splits into names. *)
Lemma CleanAndSplit_form (p : list ascii) :
  let t := Strings.TrimBytes (CleanBytes p) (bytes "/.") in
  t = [] ∨ Forall nameBytes (Strings.SplitByte t "/"%char).
Proof.
  cbv zeta.
  destruct (CleanBytes_form p)
    as [->|(rooted & k & names & -> & _ & _ & Hnames)]; [by left|].
  destruct (render_cut rooted k names) as (pre & -> & Hpre).
  rewrite TrimBytes_cut by done.
  apply (Split_Trim_names names Hnames).
Qed.

Lemma CleanAndSplit_unfold (p : string) :
  shared.CleanAndSplit p
  = map of_bytes
      (Strings.SplitByte (Strings.TrimBytes (CleanBytes (bytes p)) (bytes "/.")) "/"%char).
Proof.
  unfold shared.CleanAndSplit, shared.sep, shared.sepStringAndDot.
  unfold Strings.Split, Strings.Trim, Clean. by rewrite !SharedProofs.bytes_of_bytes.
Qed.

(** X2: [CleanAndSplit] returns the list that holds only the empty string,
    or names only: no element is empty, is [.] or [..], or has a slash in
    it. *)
Theorem CleanAndSplit_names (p : string) :
  shared.CleanAndSplit p = [""] ∨ Forall name (shared.CleanAndSplit p).
Proof.
  rewrite CleanAndSplit_unfold.
  destruct (CleanAndSplit_form (bytes p)) as [->|Hsplit]; [by left|].
  right. by apply Forall_name_of_bytes.
Qed.

(** *** Cleaning a clean path *)

Lemma copyElem_run (e rest' rout : list ascii) :
  "/"%char ∉ e → endsElem rest' = true →
  copyElem (e ++ rest') rout = (rest', rev e ++ rout).
Proof.
  revert rout. induction e as [|c e IH]; intros rout He Hends.
  - simpl. destruct rest' as [|c rest']; [done|]. simpl in *. by rewrite Hends.
  - apply not_elem_of_cons in He as [Hc He].
    change ((c :: e) ++ rest') with (c :: (e ++ rest')). simpl.
    apply not_eq_sym, isSlash_false in Hc. rewrite Hc.
    rewrite IH by done. by rewrite <- app_assoc.
Qed.

Lemma cleanLoop_nil (fuel : nat) (rooted : bool) (rout : list ascii) (dd : nat) :
  cleanLoop fuel rooted [] rout dd = rout.
Proof. by destruct fuel. Qed.

(** The loop copies a name that is followed by a slash or by the end. *)
Lemma cleanLoop_name (fuel : nat) (rooted : bool) (e rest' : list ascii)
    (elems : list (list ascii)) (dd : nat) :
  nameBytes e → endsElem rest' = true → Forall (λ e, e ≠ []) elems →
  cleanLoop (S fuel) rooted (e ++ rest') (rev (render rooted elems)) dd
  = cleanLoop fuel rooted rest' (rev (render rooted (elems ++ [e]))) dd.
Proof.
  intros (Hne & Hslash & Hdot & Hdotdot) Hends Helems.
  destruct e as [|c e]; [done|].
  apply not_elem_of_cons in Hslash as [Hc He].
  change ((c :: e) ++ rest') with (c :: (e ++ rest')). simpl.
  apply not_eq_sym, isSlash_false in Hc. rewrite Hc.
  assert (isDot c && endsElem (e ++ rest') = false) as ->.
  { destruct (isDot c) eqn:Hd; [|done]. apply isDot_true in Hd as ->. simpl.
    destruct e as [|c1 e]; [done|]. simpl. apply isSlash_false.
    apply not_elem_of_cons in He as [? _]. done. }
  assert (isDot c && match e ++ rest' with
                     | c1 :: rest2 => isDot c1 && endsElem rest2
                     | [] => false
                     end = false) as ->.
  { destruct (isDot c) eqn:Hd; [|done]. apply isDot_true in Hd as ->. simpl.
    destruct e as [|c1 e]; simpl.
    - destruct rest' as [|c1 rest2]; [done|]. simpl in Hends.
      apply isSlash_true in Hends as ->. done.
    - destruct (isDot c1) eqn:Hd1; [|done]. apply isDot_true in Hd1 as ->. simpl.
      destruct e as [|c2 e]; [done|]. simpl. apply isSlash_false.
      apply not_elem_of_cons in He as [_ He].
      apply not_elem_of_cons in He as [? _]. done. }
  rewrite length_rev, render_root_length by done.
  rewrite copyElem_run by done.
  f_equal. case_bool_decide as Hnil; simpl negb; cbv iota.
  - subst. simpl app. rewrite render_snoc_first, rev_app_distr. simpl.
    by rewrite <- app_assoc.
  - rewrite render_snoc by done. rewrite rev_app_distr. simpl.
    by rewrite <- !app_assoc.
Qed.

(** The loop copies names joined by slashes as they are. *)
Lemma cleanLoop_names (rooted : bool) (names elems : list (list ascii)) (dd fuel : nat) :
  Forall nameBytes names → Forall (λ e, e ≠ []) elems →
  length (joinBytes names) ≤ fuel →
  cleanLoop fuel rooted (joinBytes names) (rev (render rooted elems)) dd
  = rev (render rooted (elems ++ names)).
Proof.
  revert elems fuel. induction names as [|e names IH]; intros elems fuel Hnames Helems Hfuel.
  - simpl. by rewrite cleanLoop_nil, app_nil_r.
  - apply Forall_cons in Hnames as [He Hnames].
    assert (Forall (λ e, e ≠ []) (elems ++ [e])) as Helems'.
    { apply Forall_app. split; [done|]. apply Forall_singleton. by destruct He. }
    assert (0 < length e) as Hlen.
    { destruct He as [Hne _]. destruct e; [done|]. simpl. lia. }
    destruct names as [|e' names].
    + simpl joinBytes in *. destruct fuel as [|fuel]; [lia|].
      rewrite <- (app_nil_r e) at 1. rewrite cleanLoop_name by done.
      by rewrite cleanLoop_nil.
    + rewrite joinBytes_cons in * by done.
      rewrite length_app in Hfuel.
      change (length ("/"%char :: ?x)) with (S (length x)) in Hfuel.
      destruct fuel as [|fuel]; [lia|].
      rewrite cleanLoop_name by done.
      destruct fuel as [|fuel]; [lia|].
      change (cleanLoop (S fuel) rooted ("/"%char :: ?r) ?o ?d)
        with (cleanLoop fuel rooted r o d).
      rewrite IH; [|done|done|].
      * by rewrite <- app_assoc.
      * lia.
Qed.

Lemma cleanLoop_slashes_then (n fuel : nat) (rooted : bool) (rest rout : list ascii) (dd : nat) :
  cleanLoop (n + fuel) rooted (replicate n "/"%char ++ rest) rout dd
  = cleanLoop fuel rooted rest rout dd.
Proof. induction n as [|n IH]; [done|]. simpl. apply IH. Qed.

(** Cleaning slashes followed by names joined by slashes gives the root
    followed by the names. *)
Lemma CleanBytes_rooted_names (n : nat) (names : list (list ascii)) :
  Forall nameBytes names →
  CleanBytes ("/"%char :: replicate n "/"%char ++ joinBytes names)
  = render true names.
Proof.
  intros Hnames. unfold CleanBytes. change (isSlash "/") with true. cbv iota zeta.
  replace (length ("/"%char :: replicate n "/"%char ++ joinBytes names))
    with (n + S (length (joinBytes names)))
    by (simpl; rewrite length_app, length_replicate; lia).
  rewrite cleanLoop_slashes_then.
  change ["/"%char] with (rev (render true [])).
  rewrite cleanLoop_names; [|done|done|lia].
  simpl app. rewrite length_rev, rev_involutive.
  unfold render. by simpl.
Qed.

(** X3: a path that [Join] returned is clean, and joining it again gives it
    back. *)
Theorem Join_is_clean (parts : list string) :
  Path.Clean (shared.Join parts) = shared.Join parts
  ∧ shared.Join [shared.Join parts] = shared.Join parts.
Proof.
  destruct (Join_form parts) as (names & -> & Hnames). split.
  - unfold Clean. rewrite SharedProofs.bytes_of_bytes.
    f_equal. exact (CleanBytes_rooted_names 0 names Hnames).
  - rewrite SharedProofs.shared_Join_unfold, SharedProofs.Join_rooted.
    simpl joinLoop. rewrite SharedProofs.bytes_of_bytes.
    f_equal. exact (CleanBytes_rooted_names 1 names Hnames).
Qed.

(** *** Splitting and joining again *)

Lemma joinLoop_names (names : list (list ascii)) (buf : list ascii) :
  buf ≠ [] → Forall nameBytes names →
  joinLoop (map of_bytes names) buf = buf ++ concat (map (cons "/"%char) names).
Proof.
  revert buf. induction names as [|e names IH]; intros buf Hbuf Hall; simpl.
  - by rewrite app_nil_r.
  - apply Forall_cons in Hall as [He Hall].
    destruct buf as [|b buf]; [done|]. simpl.
    rewrite SharedProofs.bytes_of_bytes.
    rewrite (IH (b :: (buf ++ ["/"%char]) ++ e)) by done.
    simpl. by rewrite <- !app_assoc.
Qed.

Lemma concat_slash_names (names : list (list ascii)) :
  names ≠ [] → concat (map (cons "/"%char) names) = "/"%char :: joinBytes names.
Proof.
  induction names as [|e names IH]; [done|]. intros _.
  destruct names as [|e' names]; [by simpl; rewrite app_nil_r|].
  rewrite joinBytes_cons by done.
  change (concat (map (cons "/"%char) (e :: e' :: names)))
    with (("/"%char :: e) ++ concat (map (cons "/"%char) (e' :: names))).
  by rewrite IH.
Qed.

(** [Join] of names is the root followed by the names. *)
Lemma Join_of_names (names : list (list ascii)) :
  Forall nameBytes names →
  shared.Join (map of_bytes names) = of_bytes ("/"%char :: joinBytes names).
Proof.
  intros Hnames.
  rewrite SharedProofs.shared_Join_unfold, SharedProofs.Join_rooted.
  rewrite joinLoop_names by done. f_equal.
  destruct (decide (names = [])) as [->|Hne].
  - exact (CleanBytes_rooted_names 0 [] Hnames).
  - rewrite concat_slash_names by done.
    exact (CleanBytes_rooted_names 1 names Hnames).
Qed.

Lemma joinBytes_SplitByte (s : list ascii) :
  joinBytes (Strings.SplitByte s "/"%char) = s.
Proof.
  induction s as [|c s IH]; [done|]. simpl.
  destruct (Strings.SplitByte s "/"%char) as [|piece pieces] eqn:Hsplit.
  { by destruct s; simpl in *; [|destruct (Ascii.eqb _ _), (Strings.SplitByte _ _)]. }
  rewrite <- IH.
  destruct (Ascii.eqb c "/") eqn:Hc; [apply Ascii.eqb_eq in Hc as ->|];
    by destruct pieces.
Qed.

(** A string whose ends are not in the cutset stays as it is when
    trimmed, also after a slash. *)
Lemma TrimBytes_rooted (t : list ascii) :
  t ≠ [] →
  (∀ c, head t = Some c → byte_in c (bytes "/.") = false) →
  (∀ c, last t = Some c → byte_in c (bytes "/.") = false) →
  Strings.TrimBytes ("/"%char :: t) (bytes "/.") = t.
Proof.
  intros Hne Hhead Hlast.
  change (Strings.TrimBytes ("/"%char :: t) (bytes "/."))
    with (Strings.trimLeftASCII (Strings.trimRightASCII ("/"%char :: t) (bytes "/."))
            (bytes "/.")).
  assert (Strings.trimRightASCII ("/"%char :: t) (bytes "/.") = "/"%char :: t) as ->.
  { unfold Strings.trimRightASCII.
    destruct (exists_last Hne) as (m & c & ->).
    assert (Hc : last (m ++ [c]) = Some c) by apply last_snoc.
    specialize (Hlast c Hc).
    change ("/"%char :: m ++ [c]) with (("/"%char :: m) ++ [c]).
    rewrite rev_app_distr.
    change (rev [c] ++ rev ("/"%char :: m)) with (c :: rev ("/"%char :: m)).
    change (Strings.trimLeftASCII (c :: ?l) ?cut)
      with (if byte_in c cut then Strings.trimLeftASCII l cut else c :: l).
    rewrite Hlast.
    change (c :: rev ("/"%char :: m)) with (rev [c] ++ rev ("/"%char :: m)).
    by rewrite <- rev_app_distr, rev_involutive. }
  destruct t as [|c t]; [done|]. specialize (Hhead c eq_refl).
  change (Strings.trimLeftASCII ("/"%char :: c :: t) (bytes "/."))
    with (if byte_in c (bytes "/.") then Strings.trimLeftASCII t (bytes "/.") else c :: t).
  by rewrite Hhead.
Qed.

(** X4: the elements that [CleanAndSplit] returns are in normal form:
    joining them and splitting the result gives the same elements. *)
Theorem CleanAndSplit_Join_round_trip (p : string) :
  shared.CleanAndSplit (shared.Join (shared.CleanAndSplit p)) = shared.CleanAndSplit p.
Proof.
  rewrite (CleanAndSplit_unfold p).
  pose proof (SharedProofs.TrimBytes_head (CleanBytes (bytes p)) (bytes "/.")) as Hhead.
  pose proof (SharedProofs.TrimBytes_last (CleanBytes (bytes p)) (bytes "/.")) as Hlast.
  destruct (CleanAndSplit_form (bytes p)) as [Hempty|Hnames].
  { rewrite Hempty. reflexivity. }
  set (t := Strings.TrimBytes (CleanBytes (bytes p)) (bytes "/.")) in *.
  assert (Hne : t ≠ []).
  { intros Ht. rewrite Ht in Hnames. simpl in Hnames.
    apply Forall_singleton in Hnames as [Hnil _]. done. }
  rewrite Join_of_names by done. rewrite joinBytes_SplitByte.
  rewrite CleanAndSplit_unfold, SharedProofs.bytes_of_bytes.
  assert (CleanBytes ("/"%char :: t) = "/"%char :: t) as ->.
  { rewrite <- (joinBytes_SplitByte t) at 1 2.
    exact (CleanBytes_rooted_names 0 _ Hnames). }
  rewrite TrimBytes_rooted; [done|done| |].
  - intros c Hc. by apply Hhead.
  - intros c Hc. by apply Hlast.
Qed.

End CleanFormProofs.

(** * More of containerboot: settings, validation and the tailscale CLI *)

Module ContainerbootMore.
Import GoString GoError containerboot containerbootSteps containerbootRuns.

(** X5: exactly one of the three ways of configuration applies to any
    settings: one step with a config file, or two steps with a login once or
    at every start. *)
Theorem config_steps_partition (cfg : settings) :
  isOneStepConfig cfg
    = negb (isTwoStepConfigAuthOnce cfg || isTwoStepConfigAlwaysAuth cfg)
  ∧ isTwoStepConfigAuthOnce cfg && isTwoStepConfigAlwaysAuth cfg = false
  ∧ isTwoStepConfigAuthOnce cfg = AuthOnce cfg && negb (isOneStepConfig cfg)
  ∧ isTwoStepConfigAlwaysAuth cfg = negb (AuthOnce cfg) && negb (isOneStepConfig cfg).
Proof.
  unfold isOneStepConfig, isTwoStepConfigAuthOnce, isTwoStepConfigAlwaysAuth, nonEmpty.
  by destruct (AuthOnce cfg), (is_empty (TailscaledConfigFilePath cfg)).
Qed.

(** X6: settings that [validate] accepts: in userspace mode they name no
    proxy destination and no tailnet target and do not allow cluster traffic
    via ingress; they name at most one tailnet target; with a config file,
    the file loaded and none of the accept-DNS, auth key, routes, extra
    arguments and hostname settings is given; and cluster traffic via
    ingress is allowed only with a serve config and a pod IP. *)
Theorem validate_accepts {E : Type}
    (conffileLoad : string → option (error E)) (s : settings) :
  validate conffileLoad s = None →
  (UserspaceMode s = true →
     ProxyTo s = "" ∧ TailnetTargetIP s = "" ∧ TailnetTargetFQDN s = ""
     ∧ AllowProxyingClusterTrafficViaIngress s = false)
  ∧ (TailnetTargetIP s = "" ∨ TailnetTargetFQDN s = "")
  ∧ (TailscaledConfigFilePath s ≠ "" →
       conffileLoad (TailscaledConfigFilePath s) = None
       ∧ AcceptDNS s = None ∧ AuthKey s = "" ∧ Routes s = None
       ∧ ExtraArgs s = "" ∧ Hostname s = "")
  ∧ (AllowProxyingClusterTrafficViaIngress s = true →
       ServeConfigPath s ≠ "" ∧ PodIP s ≠ "").
Proof.
  unfold validate.
  destruct (TailscaledConfigFilePath s) as [|c path] eqn:Hpath; simpl.
  - destruct (ProxyTo s), (TailnetTargetIP s), (TailnetTargetFQDN s),
      (ServeConfigPath s), (PodIP s), (UserspaceMode s),
      (AllowProxyingClusterTrafficViaIngress s); simpl; intros; try done;
      intuition congruence.
  - destruct (conffileLoad (String c path)); [done|].
    destruct (AcceptDNS s), (AuthKey s), (Routes s), (ExtraArgs s), (Hostname s);
      simpl; rewrite ?orb_true_r; simpl;
      destruct (ProxyTo s), (TailnetTargetIP s), (TailnetTargetFQDN s),
        (ServeConfigPath s), (PodIP s), (UserspaceMode s),
        (AllowProxyingClusterTrafficViaIngress s); simpl; intros; try done;
        intuition congruence.
Qed.

Lemma validate_accepts_witness :
  validate (E:=Empty_set) (fun _ => None) defaultSettings = None
  ∧ (UserspaceMode defaultSettings = true →
       ProxyTo defaultSettings = "" ∧ TailnetTargetIP defaultSettings = ""
       ∧ TailnetTargetFQDN defaultSettings = ""
       ∧ AllowProxyingClusterTrafficViaIngress defaultSettings = false)
  ∧ (TailnetTargetIP defaultSettings = "" ∨ TailnetTargetFQDN defaultSettings = "")
  ∧ (TailscaledConfigFilePath defaultSettings ≠ "" →
       (fun _ : string => @None (error Empty_set)) (TailscaledConfigFilePath defaultSettings)
         = None
       ∧ AcceptDNS defaultSettings = None ∧ AuthKey defaultSettings = ""
       ∧ Routes defaultSettings = None
       ∧ ExtraArgs defaultSettings = "" ∧ Hostname defaultSettings = "")
  ∧ (AllowProxyingClusterTrafficViaIngress defaultSettings = true →
       ServeConfigPath defaultSettings ≠ "" ∧ PodIP defaultSettings ≠ "").
Proof.
  split; [reflexivity|].
  exact (validate_accepts (fun _ => None) defaultSettings eq_refl).
Defined.

Lemma defaultEnv_unset (env : gmap string string) (name defVal : string) :
  env !! name = None → defaultEnv env name defVal = defVal.
Proof. unfold defaultEnv, LookupEnv. by intros ->. Qed.

Lemma defaultBool_unset {E} (env : gmap string string) (name : string) (defVal : bool) :
  env !! name = None → defaultBool (E:=E) env name defVal = defVal.
Proof. unfold defaultBool, Getenv, LookupEnv. by intros ->. Qed.

(** X7: all configuration is optional: the settings that [main] reads from
    an environment that sets no proxy destination, no tailnet target, no
    config file and no proxying of cluster traffic pass [validate], whatever
    else the environment sets. *)
Theorem main_settings_validate {E : Type}
    (conffileLoad : string → option (error E)) (env : gmap string string) :
  env !! "TS_DEST_IP" = None →
  env !! "TS_TAILNET_TARGET_IP" = None →
  env !! "TS_TAILNET_TARGET_FQDN" = None →
  env !! "EXPERIMENTAL_TS_CONFIGFILE_PATH" = None →
  env !! "EXPERIMENTAL_ALLOW_PROXYING_CLUSTER_TRAFFIC_VIA_INGRESS" = None →
  validate conffileLoad (mainSettings (E:=E) env) = None.
Proof.
  intros Hdest Hip Hfqdn Hpath Hallow. unfold validate, mainSettings. simpl.
  rewrite !(defaultEnv_unset env _ _ Hdest), !(defaultEnv_unset env _ _ Hip),
    !(defaultEnv_unset env _ _ Hfqdn), !(defaultEnv_unset env _ _ Hpath),
    !(defaultBool_unset env _ _ Hallow).
  done.
Qed.

Lemma main_settings_validate_witness :
  routerEnv !! "TS_DEST_IP" = None
  ∧ routerEnv !! "TS_TAILNET_TARGET_IP" = None
  ∧ routerEnv !! "TS_TAILNET_TARGET_FQDN" = None
  ∧ routerEnv !! "EXPERIMENTAL_TS_CONFIGFILE_PATH" = None
  ∧ routerEnv !! "EXPERIMENTAL_ALLOW_PROXYING_CLUSTER_TRAFFIC_VIA_INGRESS" = None
  ∧ validate (E:=Empty_set) (fun _ => None) routerSettings = None.
Proof.
  assert (H1 : routerEnv !! "TS_DEST_IP" = None) by (by vm_compute).
  assert (H2 : routerEnv !! "TS_TAILNET_TARGET_IP" = None) by (by vm_compute).
  assert (H3 : routerEnv !! "TS_TAILNET_TARGET_FQDN" = None) by (by vm_compute).
  assert (H4 : routerEnv !! "EXPERIMENTAL_TS_CONFIGFILE_PATH" = None) by (by vm_compute).
  assert (H5 : routerEnv !! "EXPERIMENTAL_ALLOW_PROXYING_CLUSTER_TRAFFIC_VIA_INGRESS" = None)
    by (by vm_compute).
  split_and!; [exact H1|exact H2|exact H3|exact H4|exact H5|].
  exact (main_settings_validate (fun _ => None) routerEnv H1 H2 H3 H4 H5).
Defined.

(** X8: [defaultEnvs] returns the value of the first of the names that is
    set, also when that value is the empty string and a later name has a
    value; it returns [defVal] when none of the names is set. *)
Theorem defaultEnvs_first_set (env : gmap string string)
    (names : list string) (defVal : string) :
  (∀ before name after v,
     names = before ++ name :: after →
     Forall (λ n, env !! n = None) before →
     env !! name = Some v →
     defaultEnvs env names defVal = v)
  ∧ (Forall (λ n, env !! n = None) names → defaultEnvs env names defVal = defVal).
Proof.
  split.
  - intros before name after v -> Hbefore Hname.
    induction before as [|n before IH]; simpl.
    + unfold LookupEnv. by rewrite Hname.
    + apply Forall_cons in Hbefore as [Hn Hbefore]. unfold LookupEnv. rewrite Hn.
      by apply IH.
  - intros Hnames. induction names as [|n names IH]; simpl; [done|].
    apply Forall_cons in Hnames as [Hn Hnames]. unfold LookupEnv. rewrite Hn.
    by apply IH.
Qed.

Lemma defaultEnvs_first_set_witness :
  defaultEnvs oldAuthKey ["TS_AUTHKEY"; "TS_AUTH_KEY"] "" = "tskey-auth-k1"
  ∧ defaultEnvs twoAuthKeys ["TS_AUTHKEY"; "TS_AUTH_KEY"] "" = ""
  ∧ defaultEnvs ∅ ["TS_AUTHKEY"; "TS_AUTH_KEY"] "none" = "none".
Proof.
  assert (Hunset : Forall (λ n, oldAuthKey !! n = None) ["TS_AUTHKEY"])
    by (by repeat constructor).
  assert (Hnone : Forall (λ n, (∅ : gmap string string) !! n = None)
                    ["TS_AUTHKEY"; "TS_AUTH_KEY"])
    by (by repeat constructor).
  split; [|split].
  - exact (proj1 (defaultEnvs_first_set oldAuthKey ["TS_AUTHKEY"; "TS_AUTH_KEY"] "")
             ["TS_AUTHKEY"] "TS_AUTH_KEY" [] "tskey-auth-k1" eq_refl Hunset eq_refl).
  - exact (proj1 (defaultEnvs_first_set twoAuthKeys ["TS_AUTHKEY"; "TS_AUTH_KEY"] "")
             [] "TS_AUTHKEY" ["TS_AUTH_KEY"] "" eq_refl (Forall_nil_2 _) eq_refl).
  - exact (proj2 (defaultEnvs_first_set ∅ ["TS_AUTHKEY"; "TS_AUTH_KEY"] "none") Hnone).
Defined.

(** *** The arguments of the tailscale CLI *)

Section CLI.
Variable stringsFields : string → list string.

(** X9: without an auth key and without extra arguments, 'tailscale up' is
    run with the arguments of 'tailscale set', [up] in the place of [set]:
    'tailscale set' passes every option of 'tailscale up' but those two. *)
Theorem tailscaleUp_args_of_set (cfg : settings) :
  AuthKey cfg = "" → ExtraArgs cfg = "" →
  tailscaleUpArgs stringsFields cfg = <[1 := "up"]> (tailscaleSetArgs cfg).
Proof.
  intros Hkey Hextra. unfold tailscaleUpArgs, tailscaleSetArgs.
  rewrite Hkey, Hextra. simpl.
  by destruct (AcceptDNS cfg) as [[]|], (Routes cfg), (Hostname cfg).
Qed.

End CLI.

Lemma tailscaleUp_args_of_set_witness :
  AuthKey routerSettings = "" ∧ ExtraArgs routerSettings = ""
  ∧ tailscaleUpArgs (fun _ => []) routerSettings
    = ["--socket=/tmp/tailscaled.sock"; "up"; "--accept-dns=true";
       "--advertise-routes=10.0.0.0/8,192.168.0.0/24"; "--hostname=router"].
Proof.
  split; [reflexivity|]. split; [reflexivity|].
  exact (tailscaleUp_args_of_set (fun _ => []) routerSettings eq_refl eq_refl).
Defined.

(** X10: 'tailscale set' is told to advertise routes exactly when TS_ROUTES
    is set, with its value: a TS_ROUTES set to the empty string passes
    [--advertise-routes=], which unsets the routes, and an unset TS_ROUTES
    passes no such argument. *)
Theorem tailscaleSet_routes {E : Type} (env : gmap string string) (r : string) :
  "--advertise-routes=" +:+ r ∈ tailscaleSetArgs (mainSettings (E:=E) env)
  ↔ env !! "TS_ROUTES" = Some r.
Proof.
  unfold tailscaleSetArgs, mainSettings. simpl.
  unfold defaultEnvStringPointer, LookupEnv.
  destruct (env !! "TS_ROUTES") as [routes|] eqn:Hroutes; simpl;
    destruct (defaultEnvBoolPointer env "TS_ACCEPT_DNS") as [[]|];
    destruct (nonEmpty (defaultEnv env "TS_HOSTNAME" "")); simpl;
    rewrite ?elem_of_cons, ?elem_of_nil;
    (split; [intros H; repeat destruct H as [H|H]; try discriminate H; try done;
             simpl in H; by simplify_eq
            |intros [= ->]; eauto 10]).
Qed.

End ContainerbootMore.

(** * More of the stat cache *)

Module StatCacheMore.
Import GoError webdavfs webdavfsSet webdavfsRuns.

Section StatCache.
Context {FileInfo E W : Type}.
Implicit Types (c : statCache FileInfo) (name : string) (w : W).
Implicit Types (fetch : string → W → (FileInfo * option (error E)) * W).

(** X11: once [getOrFetch] has returned an info for a name without error,
    asking again returns the same info from the cache: no callback is
    called and the cache stays as it is. *)
Theorem getOrFetch_again c name fetch w fi c1 w1 fetch2 (w2 : W) :
  getOrFetch c name fetch w = ((fi, None), c1, w1) →
  getOrFetch c1 name fetch2 w2 = ((fi, None), c1, w2).
Proof.
  unfold getOrFetch, cacheGet.
  destruct (cache c !! name) as [item|] eqn:Hget.
  - intros [= <- <- <-]. by rewrite Hget.
  - destruct (fetch name w) as [[fi' [err|]] w']; [done|].
    intros [= <- <- <-]. simpl. by rewrite lookup_insert_eq.
Qed.

(** X12: after [invalidate] nothing is cached: [getOrFetch] calls the
    callback, for every name, and returns what it returns. *)
Theorem invalidate_forgets c name fetch w :
  fst (fst (getOrFetch (invalidate c) name fetch w)) = fst (fetch name w)
  ∧ snd (getOrFetch (invalidate c) name fetch w) = snd (fetch name w)
  ∧ cache (invalidate c) = ∅.
Proof.
  unfold getOrFetch, cacheGet, invalidate. simpl. rewrite lookup_empty.
  by destruct (fetch name w) as [[fi [err|]] w'].
Qed.

(** X13: [getOrFetch] touches no entry of the cache but that of its
    name. *)
Theorem getOrFetch_frame c name fetch w :
  delete name (cache (snd (fst (getOrFetch c name fetch w)))) = delete name (cache c).
Proof.
  unfold getOrFetch, cacheGet.
  destruct (cache c !! name) as [item|] eqn:Hget; [done|].
  destruct (fetch name w) as [[fi [err|]] w']; [done|].
  simpl. by rewrite delete_insert_eq.
Qed.

(** *** [set] *)

Variable Name : FileInfo → string.

Local Abbreviation pathOf := (pathOf Name).

Lemma set_snoc c parentPath infos info :
  set Name c parentPath (infos ++ [info])
  = cacheSet (set Name c parentPath infos) (pathOf parentPath info) info.
Proof. unfold set. by rewrite fold_left_app. Qed.

Lemma set_lookup c parentPath infos path :
  cache (set Name c parentPath infos) !! path
  = match last (filter (λ info, pathOf parentPath info = path) infos) with
    | Some info => Some info
    | None => cache c !! path
    end.
Proof.
  induction infos as [|info infos IH] using rev_ind; [done|].
  rewrite set_snoc, filter_app, filter_cons, filter_nil. simpl cache.
  case_decide as Hpath.
  - rewrite last_snoc. subst path. apply lookup_insert_eq.
  - rewrite lookup_insert_ne by done. rewrite app_nil_r. apply IH.
Qed.

(** X14: after [set], the cache answers for the path of every info of the
    listing, the base name of the info under the parent path, with the last
    info of the listing that has this path; no callback is called. *)
Theorem set_then_getOrFetch c parentPath infos info fetch w :
  info ∈ infos →
  ∃ cached,
    last (filter (λ i, pathOf parentPath i = pathOf parentPath info) infos) = Some cached
    ∧ getOrFetch (set Name c parentPath infos) (pathOf parentPath info) fetch w
      = ((cached, None), set Name c parentPath infos, w).
Proof.
  intros Hin.
  destruct (last (filter (λ i, pathOf parentPath i = pathOf parentPath info) infos))
    as [cached|] eqn:Hlast.
  - exists cached. split; [done|].
    apply StatCacheProofs.getOrFetch_hit. by rewrite set_lookup, Hlast.
  - apply last_None in Hlast.
    assert (info ∈ filter (λ i, pathOf parentPath i = pathOf parentPath info) infos) as Hf
      by (by apply list_elem_of_filter).
    rewrite Hlast in Hf. by apply elem_of_nil in Hf.
Qed.

End StatCache.

Lemma getOrFetch_again_witness :
  getOrFetch emptyCache "a.txt" statServer 0
    = (("a.txt", None), cacheSet emptyCache "a.txt" "a.txt", 1)
  ∧ getOrFetch (cacheSet emptyCache "a.txt" "a.txt") "a.txt" statServer 1
    = (("a.txt", None), cacheSet emptyCache "a.txt" "a.txt", 1).
Proof.
  assert (H : getOrFetch emptyCache "a.txt" statServer 0
              = (("a.txt", None), cacheSet emptyCache "a.txt" "a.txt", 1)) by reflexivity.
  split; [exact H|].
  exact (getOrFetch_again emptyCache "a.txt" statServer 0 "a.txt" _ 1 statServer 1 H).
Defined.

Lemma set_then_getOrFetch_witness :
  "a.txt" ∈ listing
  ∧ ∃ cached,
      last (filter (λ i, webdavfsSet.pathOf (λ i, i) "/dir" i = webdavfsSet.pathOf (λ i, i) "/dir" "a.txt") listing)
        = Some cached
      ∧ getOrFetch (set (λ i, i) emptyCache "/dir" listing)
          (webdavfsSet.pathOf (λ i, i) "/dir" "a.txt") statServer 0
        = ((cached, None), set (λ i, i) emptyCache "/dir" listing, 0).
Proof.
  assert (H : "a.txt" ∈ listing) by (apply list_elem_of_here).
  split; [exact H|].
  exact (set_then_getOrFetch (λ i, i) emptyCache "/dir" listing "a.txt" statServer 0 H).
Defined.

End StatCacheMore.

(** * More of the operator: names, labels and handlers *)

Module OperatorMore.
Import GoString GoError operator operatorHandlers MagicDNS.

(** *** [isMagicDNSName] *)

Local Arguments isLabelByte : simpl never.

Lemma spanLabel_spec (s : list ascii) :
  ∃ label rest, spanLabel s = (label, rest) ∧ s = label ++ rest
                ∧ forallb isLabelByte label = true.
Proof.
  induction s as [|c s (label & rest & Hs & -> & Hlabel)]; simpl.
  - by exists [], [].
  - destruct (isLabelByte c) eqn:Hc.
    + rewrite Hs. exists (c :: label), rest. simpl. by rewrite Hc.
    + by exists [], (c :: label ++ rest).
Qed.

Lemma spanLabel_app (label rest : list ascii) :
  forallb isLabelByte label = true →
  match rest with c :: _ => isLabelByte c = false | [] => True end →
  spanLabel (label ++ rest) = (label, rest).
Proof.
  intros Hlabel Hrest. induction label as [|c label IH]; simpl.
  - destruct rest as [|c rest]; [done|]. simpl. by rewrite Hrest.
  - simpl in Hlabel. apply andb_true_iff in Hlabel as [-> Hlabel]. by rewrite IH.
Qed.

Lemma bytes_app (a b : string) : bytes (a +:+ b) = bytes a ++ bytes b.
Proof. induction a as [|c a IH]; simpl; [done|]. by rewrite IH. Qed.

Lemma bytes_inj (a b : string) : bytes a = bytes b → a = b.
Proof.
  intros Hab. rewrite <- (SharedProofs.of_bytes_bytes a), <- (SharedProofs.of_bytes_bytes b).
  by rewrite Hab.
Qed.

Lemma name_of_parts (name tail : string) (b1 b2 : list ascii) :
  bytes name = b1 ++ "."%char :: b2 ++ bytes tail →
  name = of_bytes b1 +:+ "." +:+ of_bytes b2 +:+ tail.
Proof.
  intros Hname. apply bytes_inj. rewrite Hname, bytes_app, SharedProofs.bytes_of_bytes.
  change (bytes ("." +:+ ?s)) with ("."%char :: bytes s).
  by rewrite bytes_app, SharedProofs.bytes_of_bytes.
Qed.

Lemma isMagicDNSName_of_label (host tailnet tail : string) :
  label host → label tailnet →
  tail = ".ts.net" ∨ tail = ".ts.net." →
  isMagicDNSName (host +:+ "." +:+ tailnet +:+ tail) = true.
Proof.
  intros [Hhost Hhostb] [Htailnet Htailnetb] Htail. unfold isMagicDNSName.
  rewrite bytes_app. change (bytes ("." +:+ ?s)) with ("."%char :: bytes s).
  rewrite spanLabel_app; [|done|done].
  destruct (bytes host) as [|h hs] eqn:Hh.
  { destruct host; done. }
  rewrite Ascii.eqb_refl. simpl andb.
  rewrite bytes_app, spanLabel_app; [|done|by destruct Htail as [-> | ->]].
  destruct (bytes tailnet) as [|t ts] eqn:Ht.
  { destruct tailnet; done. }
  rewrite SharedProofs.of_bytes_bytes. by destruct Htail as [-> | ->].
Qed.

(** X15: [isMagicDNSName] accepts exactly the names of the regular
    expression: a host label, a dot, a tailnet label and [.ts.net], with or
    without a final dot. *)
Theorem isMagicDNSName_language (name : string) :
  isMagicDNSName name = true ↔ magicDNSName name.
Proof.
  split.
  - unfold isMagicDNSName.
    destruct (spanLabel_spec (bytes name)) as (l1 & r1 & -> & Hname & Hl1).
    destruct l1 as [|c1 l1]; [done|]. destruct r1 as [|dot1 rest1]; [done|].
    intros [Hdot Hrest]%andb_true_iff. apply Ascii.eqb_eq in Hdot as ->.
    destruct (spanLabel_spec rest1) as (l2 & r2 & Hspan & -> & Hl2).
    rewrite Hspan in Hrest.
    destruct l2 as [|c2 l2]; [done|].
    exists (of_bytes (c1 :: l1)), (of_bytes (c2 :: l2)).
    split; [split; [done|by rewrite SharedProofs.bytes_of_bytes]|].
    split; [split; [done|by rewrite SharedProofs.bytes_of_bytes]|].
    rewrite <- (SharedProofs.bytes_of_bytes r2) in Hname.
    apply orb_true_iff in Hrest as [Htail|Htail]; apply String.eqb_eq in Htail;
      rewrite Htail in Hname; [left|right]; by apply name_of_parts.
  - intros (host & tailnet & Hhost & Htailnet & [-> | ->]);
      apply isMagicDNSName_of_label; auto.
Qed.

(** *** The labels of child resources and the handlers *)

Section Handlers.
Context `{Names} {O : Type} `{!Object O}.

Lemma childResourceLabels_lookup (name ns typ : string) :
  NoDup [LabelManaged; LabelParentName; LabelParentNamespace; LabelParentType] →
  index (childResourceLabels name ns typ) LabelManaged = "true"
  ∧ index (childResourceLabels name ns typ) LabelParentName = name
  ∧ index (childResourceLabels name ns typ) LabelParentNamespace = ns
  ∧ index (childResourceLabels name ns typ) LabelParentType = typ.
Proof.
  intros Hdup. unfold index, childResourceLabels.
  pose proof (NoDup_cons_1_1 _ _ Hdup) as Hm. apply NoDup_cons_1_2 in Hdup.
  pose proof (NoDup_cons_1_1 _ _ Hdup) as Hn. apply NoDup_cons_1_2 in Hdup.
  pose proof (NoDup_cons_1_1 _ _ Hdup) as Hns.
  apply not_elem_of_cons in Hm as [? Hm]. apply not_elem_of_cons in Hm as [? Hm].
  apply not_elem_of_cons in Hm as [? _].
  apply not_elem_of_cons in Hn as [? Hn]. apply not_elem_of_cons in Hn as [? _].
  apply not_elem_of_cons in Hns as [? _].
  split_and!; by simplify_map_eq.
Qed.

(** X16: the labels that the reconciler puts on the child resources of a
    parent lead the handlers back to the parent: an object with the labels
    of [childResourceLabels name ns typ] is a managed resource of type
    [typ], its parent is [name] in [ns], the handler of a type enqueues the
    parent exactly when the type is [typ], and the handler of Services
    enqueues it exactly when [typ] is [svc], enqueueing nothing otherwise. *)
Theorem handlers_find_parent (o : O) (name ns typ typ' : string) :
  NoDup [LabelManaged; LabelParentName; LabelParentNamespace; LabelParentType] →
  GetLabels o = childResourceLabels name ns typ →
  isManagedResource o = true
  ∧ isManagedByType o typ' = String.eqb typ typ'
  ∧ parentFromObjectLabels o = {| KeyNamespace := ns; KeyName := name |}
  ∧ managedResourceHandlerForType typ' o
    = (if String.eqb typ typ'
       then [{| RequestNamespacedName := {| KeyNamespace := ns; KeyName := name |} |}]
       else [])
  ∧ serviceHandler o
    = (if String.eqb typ "svc"
       then [{| RequestNamespacedName := {| KeyNamespace := ns; KeyName := name |} |}]
       else []).
Proof.
  intros Hdup Hlabels.
  destruct (childResourceLabels_lookup name ns typ Hdup) as (Hm & Hn & Hns & Ht).
  assert (isManagedResource o = true) as Hmanaged.
  { unfold isManagedResource. by rewrite Hlabels, Hm. }
  assert (∀ t, isManagedByType o t = String.eqb typ t) as Htype.
  { intros t. unfold isManagedByType. by rewrite Hmanaged, Hlabels, Ht. }
  assert (parentFromObjectLabels o = {| KeyNamespace := ns; KeyName := name |}) as Hparent.
  { unfold parentFromObjectLabels. by rewrite Hlabels, Hn, Hns. }
  split_and!; [done|done|done| |].
  - unfold managedResourceHandlerForType. rewrite Htype, Hparent.
    by destruct (String.eqb typ typ').
  - unfold serviceHandler. rewrite Htype, Hparent, Hmanaged.
    by destruct (String.eqb typ "svc").
Qed.

End Handlers.

Import operator.Fake operatorRuns.

Lemma fake_labels_distinct :
  NoDup [LabelManaged; LabelParentName; LabelParentNamespace; LabelParentType].
Proof. apply (bool_decide_unpack _). by vm_compute. Qed.

Lemma handlers_find_parent_witness :
  NoDup [LabelManaged; LabelParentName; LabelParentNamespace; LabelParentType]
  ∧ GetLabels childOfWeb = childResourceLabels "web" "default" "svc"
  ∧ isManagedResource childOfWeb = true
  ∧ isManagedByType childOfWeb "svc" = true
  ∧ parentFromObjectLabels childOfWeb = web
  ∧ managedResourceHandlerForType "svc" childOfWeb = [{| RequestNamespacedName := web |}]
  ∧ serviceHandler childOfWeb = [{| RequestNamespacedName := web |}].
Proof.
  split; [exact fake_labels_distinct|]. split; [reflexivity|].
  exact (handlers_find_parent childOfWeb "web" "default" "svc" "svc"
           fake_labels_distinct eq_refl).
Defined.

End OperatorMore.

(** * What a reconcile of a Service keeps *)

Module ReconcilerMore.
Import GoString GoError operator operatorInv.

Section Keeps.
Context `{Names} {E W : Type} `{!Outside E W}.
Variable isDefaultLoadBalancer : bool.
Variable I : state (W:=W) → Prop.
Variable Qc : call → Prop.

Hypothesis I_outcall : ∀ st c w, I st → Qc c →
  I {| outside := w; calls := calls st ++ [c];
       managedIngressProxies := managedIngressProxies st;
       managedEgressProxies := managedEgressProxies st;
       gaugeIngressProxies := gaugeIngressProxies st;
       gaugeEgressProxies := gaugeEgressProxies st |}.
Hypothesis I_remove : ∀ uid, keeps I (removeManaged uid).
Hypothesis I_ingress : ∀ uid, keeps I (addManagedIngress uid).
Hypothesis I_egress : ∀ uid, keeps I (addManagedEgress uid).

Lemma bind_run {A B} (m : M (W:=W) A) (k : A → M B) st :
  bind m k st = k (fst (m st)) (snd (m st)).
Proof. unfold bind. by destruct (m st). Qed.

Lemma keeps_ret {A} (a : A) : keeps I (ret a).
Proof. by intros st. Qed.

Lemma keeps_bind {A B} (m : M A) (k : A → M B) :
  keeps I m → (∀ a, keeps I (k a)) → keeps I (bind m k).
Proof. intros Hm Hk st HI. rewrite bind_run. apply Hk, Hm, HI. Qed.

Lemma keeps_bind_val {A B} (P : A → Prop) (m : M A) (k : A → M B) :
  (∀ st, I st → I (snd (m st)) ∧ P (fst (m st))) →
  (∀ a, P a → keeps I (k a)) → keeps I (bind m k).
Proof.
  intros Hm Hk st HI. rewrite bind_run. destruct (Hm st HI) as [HI' HP].
  by apply Hk.
Qed.

Lemma keeps_outcall {A} c (f : W → A * W) : Qc c → keeps I (outcall c f).
Proof.
  intros Hc st HI. unfold outcall. destruct (f (outside st)) as [a w]. simpl.
  by apply I_outcall.
Qed.

Lemma keeps_maybeCleanup svc :
  (∀ l, Qc (CallCleanup l)) → (∀ s, Qc (CallUpdate s)) → keeps I (maybeCleanup svc).
Proof.
  intros Hcl Hup. unfold maybeCleanup.
  destruct (_ <? 0)%Z.
  - apply keeps_bind; [apply I_remove|]. intros _. apply keeps_ret.
  - apply keeps_bind; [by apply keeps_outcall|]. intros [done [err|]].
    + apply keeps_ret.
    + destruct (negb done); [apply keeps_ret|].
      apply keeps_bind; [by apply keeps_outcall|]. intros [svc' [err|]].
      * apply keeps_ret.
      * apply keeps_bind; [apply I_remove|]. intros _. apply keeps_ret.
Qed.

Hypothesis Qc_provision : ∀ c, provisionCall c → Qc c.

Lemma keeps_updateProvisioned svc hsvc sts crl :
  keeps I (updateProvisioned isDefaultLoadBalancer svc hsvc sts crl).
Proof.
  unfold updateProvisioned.
  destruct (_ || _).
  - destruct (_ || _); [|apply keeps_ret].
    apply keeps_bind; [by apply keeps_outcall, Qc_provision|].
    intros [svc' [err|]]; apply keeps_ret.
  - destruct (negb _); [apply keeps_ret|].
    apply keeps_bind; [by apply keeps_outcall, Qc_provision|].
    intros [[[id tsHost] tsIPs] [err|]]; [apply keeps_ret|].
    destruct (is_empty tsHost).
    + apply keeps_bind; [by apply keeps_outcall, Qc_provision|].
      intros [svc' [err|]]; apply keeps_ret.
    + destruct (ParseAddr _); [|apply keeps_ret].
      apply keeps_bind; [by apply keeps_outcall, Qc_provision|].
      intros [svc' [err|]]; apply keeps_ret.
Qed.

Lemma HasSuffix_dot s : Strings.HasSuffix (s +:+ ".") "." = true.
Proof.
  unfold Strings.HasSuffix.
  assert (bytes (s +:+ ".") = bytes s ++ ["."%char]) as ->.
  { unfold bytes. induction s as [|c s IH]; simpl; [done|]. by rewrite IH. }
  rewrite rev_app_distr. simpl. by destruct (rev (bytes s)).
Qed.

Lemma keeps_provision svc hostname proxyClass :
  keeps I (provision isDefaultLoadBalancer svc hostname proxyClass).
Proof.
  unfold provision.
  apply keeps_bind.
  { destruct (negb _); [|apply keeps_ret]. by apply keeps_outcall, Qc_provision. }
  intros [svc' [err|]]; [apply keeps_ret|].
  apply (keeps_bind_val (λ sts, provisionCall (CallProvision sts))).
  { intros st HI.
    destruct (shouldExpose _ _).
    - rewrite bind_run. split; [by apply I_ingress|]. simpl.
      repeat split; [|by left|by eexists].
      unfold oneTarget. simpl. rewrite filter_cons. case_decide; simpl; lia.
    - destruct (negb (is_empty (tailnetTargetAnnotation svc'))).
      + rewrite bind_run. split; [by apply I_egress|]. simpl.
        repeat split; [|by left|by eexists].
        unfold oneTarget. simpl. rewrite !filter_cons. repeat case_decide; simpl; done || lia.
      + destruct (negb (is_empty (index _ _))).
        * rewrite bind_run. split; [by apply I_egress|]. simpl.
          repeat split; [| |by eexists].
          -- unfold oneTarget. simpl. rewrite !filter_cons.
             repeat case_decide; simpl; done || lia.
          -- right. unfold fqdnDotted. simpl.
             destruct (Strings.HasSuffix (index _ _) ".") eqn:Hs; simpl;
               [done|apply HasSuffix_dot].
        * split; [done|]. simpl. repeat split; [|by left|by eexists].
          unfold oneTarget. simpl. lia. }
  intros sts Hsts.
  apply keeps_bind; [by apply keeps_outcall, Qc_provision|].
  intros [hsvc [err|]]; [apply keeps_ret|apply keeps_updateProvisioned].
Qed.

Lemma keeps_maybeProvision svc : keeps I (maybeProvision isDefaultLoadBalancer svc).
Proof.
  intros st HI. unfold maybeProvision.
  destruct (ssrValidate (outside st)).
  { revert st HI. apply keeps_bind; [by apply keeps_outcall, Qc_provision|].
    intros _. apply keeps_ret. }
  destruct (0 <? _).
  { revert st HI. apply keeps_bind; [by apply keeps_outcall, Qc_provision|].
    intros _. apply keeps_ret. }
  revert st HI. apply keeps_bind.
  { destruct (negb _); [|apply keeps_ret].
    unfold proxyClassIsReady. apply keeps_bind; [by apply keeps_outcall, Qc_provision|].
    intros [pc|err]; apply keeps_ret. }
  intros [ready [err|]]; [apply keeps_ret|].
  destruct (negb ready); [apply keeps_ret|].
  destruct (nameForService svc) as [hostname [err|]]; [apply keeps_ret|].
  apply keeps_provision.
Qed.

Lemma keeps_Reconcile req : keeps I (Reconcile isDefaultLoadBalancer req).
Proof.
  unfold Reconcile.
  apply keeps_bind; [by apply keeps_outcall, Qc_provision|].
  intros [svc|err].
  - destruct (_ || _).
    + apply keeps_bind.
      * apply keeps_maybeCleanup; intros; by apply Qc_provision.
      * intros [err s]. apply keeps_ret.
    + apply keeps_bind; [apply keeps_maybeProvision|].
      intros [err s]. apply keeps_ret.
  - destruct (IsNotFound err); apply keeps_ret.
Qed.

End Keeps.

Section Reconciler.
Context `{Names} {E W : Type} `{!Outside E W}.
Variable isDefaultLoadBalancer : bool.

Local Abbreviation Reconcile := (Reconcile isDefaultLoadBalancer).
Local Abbreviation maybeProvision := (maybeProvision isDefaultLoadBalancer).

(** X17: a reconcile keeps the gauges in step with the two sets of managed
    proxies: if each gauge shows the size of its set before, it does so
    after, whatever the calls outside return. *)
Theorem Reconcile_keeps_gauges (req : NamespacedName) (st : state) :
  gaugesInSync st → gaugesInSync (snd (Reconcile req st)).
Proof.
  apply (keeps_Reconcile isDefaultLoadBalancer gaugesInSync (λ _, True));
    by try (intros uid st' [Hi He]; split).
Qed.

(** X18: whatever a reconcile does, each call of [a.ssr.Provision] it makes
    has at most one of the cluster target, the tailnet target address and
    the tailnet target name set, a target name that ends with a dot, and
    child resource labels that name the parent, of type [svc]. *)
Theorem Reconcile_provision_calls (req : NamespacedName) (st : state) :
  ∃ more, calls (snd (Reconcile req st)) = calls st ++ more
          ∧ Forall provisionCall more.
Proof.
  apply (keeps_Reconcile isDefaultLoadBalancer
           (λ st', ∃ more, calls st' = calls st ++ more ∧ Forall provisionCall more)
           provisionCall); try done.
  - intros st' c w (more & Hcalls & Hall) Hc. exists (more ++ [c]). simpl.
    rewrite Hcalls, <- (assoc_L (++)). split; [done|].
    apply Forall_app. by split; [|apply Forall_singleton].
  - intros uid st' (more & Hcalls & Hall). by exists more.
  - intros uid st' (more & Hcalls & Hall). by exists more.
  - intros uid st' (more & Hcalls & Hall). by exists more.
  - exists []. split; [by rewrite app_nil_r|by apply Forall_nil].
Qed.

(** X19: [Reconcile] never asks for a requeue: its result is the zero
    [reconcile.Result] on every path, with or without an error. *)
Theorem Reconcile_never_requeues (req : NamespacedName) (st : state) :
  fst (fst (Reconcile req st)) = emptyResult.
Proof.
  unfold operator.Reconcile. rewrite bind_run.
  destruct (fst (outcall _ _ st)) as [svc|err].
  - destruct (_ || _); rewrite bind_run.
    + by destruct (fst (maybeCleanup svc _)).
    + by destruct (fst (operator.maybeProvision _ svc _)).
  - by destruct (IsNotFound err).
Qed.

(** X20: for a Service that is being deleted, or that is neither to be
    exposed nor has a tailnet target, a reconcile only cleans up: after the
    Get it calls nothing but [a.ssr.Cleanup] and [a.Update], and no proxy is
    added to the managed sets. *)
Theorem Reconcile_cleans_up_only (req : NamespacedName) (st : state) (svc : Service) :
  fst (clientGet req (outside st)) = inl svc →
  negb (IsZero (DeletionTimestamp svc))
  || (negb (shouldExpose isDefaultLoadBalancer svc)
      && is_empty (tailnetTargetAnnotation svc)
      && is_empty (index (Annotations svc) AnnotationTailnetTargetFQDN)) = true →
  ∃ more, calls (snd (Reconcile req st)) = calls st ++ CallGet req :: more
          ∧ Forall cleanupCall more
          ∧ managedIngressProxies (snd (Reconcile req st)) ⊆ managedIngressProxies st
          ∧ managedEgressProxies (snd (Reconcile req st)) ⊆ managedEgressProxies st.
Proof.
  intros Hget Hcond. unfold operator.Reconcile. rewrite bind_run.
  assert (fst (outcall (CallGet req) (clientGet req) st) = inl svc) as ->.
  { unfold outcall. by destruct (clientGet req (outside st)). }
  rewrite Hcond, bind_run.
  destruct (fst (maybeCleanup svc _)) as [err svc']. simpl.
  apply (keeps_maybeCleanup
           (λ st', ∃ more, calls st' = calls st ++ CallGet req :: more
                           ∧ Forall cleanupCall more
                           ∧ managedIngressProxies st' ⊆ managedIngressProxies st
                           ∧ managedEgressProxies st' ⊆ managedEgressProxies st)
           cleanupCall); try done.
  - intros st' c w (more & Hcalls & Hall & Hi & He) Hc. exists (more ++ [c]). simpl.
    rewrite Hcalls, <- (assoc_L (++)). split; [done|].
    split; [|done]. apply Forall_app. by split; [|apply Forall_singleton].
  - intros uid st' (more & Hcalls & Hall & Hi & He). exists more. simpl.
    repeat split; [done|done|by apply subseteq_difference_l..].
  - exists []. unfold outcall. destruct (clientGet req (outside st)). simpl.
    by repeat split.
Qed.

(** X21: a Service that breaks a rule of [validateService] is not
    provisioned: [maybeProvision] records one warning event on it, calls
    nothing else, leaves the managed proxies as they are and returns no
    error. *)
Theorem maybeProvision_invalid_service (svc : Service) (st : state) :
  ssrValidate (outside st) = None →
  0 < length (validateService svc) →
  fst (maybeProvision svc st) = (None, svc)
  ∧ calls (snd (maybeProvision svc st))
    = calls st ++ [CallEvent svc EventTypeWarning "INVALIDSERVCICE"
                     (Sprintf "unable to provision proxy resources: invalid Service: %s"
                        [ArgString (Strings.Join (validateService svc) ", ")])]
  ∧ outside (snd (maybeProvision svc st)) = outside st
  ∧ managedIngressProxies (snd (maybeProvision svc st)) = managedIngressProxies st
  ∧ managedEgressProxies (snd (maybeProvision svc st)) = managedEgressProxies st.
Proof.
  intros Hvalid Hviolations. unfold operator.maybeProvision. rewrite Hvalid.
  by apply Nat.ltb_lt in Hviolations as ->.
Qed.

(** X22: a valid Service that asks for a ProxyClass is provisioned only
    when that ProxyClass is there and ready. If fetching it fails,
    [maybeProvision] returns that error, wrapped twice; if it is not ready,
    [maybeProvision] returns no error; in both cases the Get of the
    ProxyClass is the only call. *)
Theorem maybeProvision_proxy_class (svc : Service) (st : state) :
  ssrValidate (outside st) = None →
  validateService svc = [] →
  proxyClassForObject svc ≠ "" →
  match fst (clientGetProxyClass (proxyClassForObject svc) (outside st)) with
  | inr err =>
      fst (maybeProvision svc st)
      = (Some (Wrap "error verifying ProxyClass for Service: %w" []
                 (Wrap "error getting ProxyClass %s: %w" [proxyClassForObject svc] err)),
         svc)
      ∧ calls (snd (maybeProvision svc st))
        = calls st ++ [CallGetProxyClass (proxyClassForObject svc)]
  | inl proxyClass =>
      ProxyClassIsReady proxyClass = true
      ∨ (fst (maybeProvision svc st) = (None, svc)
         ∧ calls (snd (maybeProvision svc st))
           = calls st ++ [CallGetProxyClass (proxyClassForObject svc)])
  end.
Proof.
  intros Hvalid Hviolations Hclass. unfold operator.maybeProvision.
  rewrite Hvalid, Hviolations. simpl.
  destruct (proxyClassForObject svc) as [|c pc] eqn:Hpc; [done|]. simpl.
  unfold proxyClassIsReady. rewrite !bind_run. unfold outcall.
  destruct (clientGetProxyClass _ (outside st)) as [[proxyClass|err] w]; simpl; [|done].
  destruct (ProxyClassIsReady proxyClass); [by left|by right].
Qed.

(** X23: the finalizer comes first. When a valid Service has no finalizer
    of the operator and the Update that adds it fails, [maybeProvision]
    returns that error wrapped and does nothing else: no proxy is
    provisioned and none is added to the managed sets. *)
Theorem maybeProvision_finalizer_first (svc : Service) (st : state) (err : error E) :
  let svc' := setFinalizers svc (Finalizers svc ++ [FinalizerName]) in
  ssrValidate (outside st) = None →
  validateService svc = [] →
  proxyClassForObject svc = "" →
  snd (nameForService svc) = None →
  slicesContains (Finalizers svc) FinalizerName = false →
  snd (fst (clientUpdate svc' (outside st))) = Some err →
  fst (fst (maybeProvision svc st)) = Some (Wrap "failed to add finalizer: %w" [] err)
  ∧ calls (snd (maybeProvision svc st)) = calls st ++ [CallUpdate svc']
  ∧ managedIngressProxies (snd (maybeProvision svc st)) = managedIngressProxies st
  ∧ managedEgressProxies (snd (maybeProvision svc st)) = managedEgressProxies st.
Proof.
  intros svc' Hvalid Hviolations Hclass Hname Hfinalizer Hupdate.
  unfold operator.maybeProvision. rewrite Hvalid, Hviolations, Hclass. simpl.
  rewrite bind_run. simpl.
  destruct (nameForService svc) as [hostname nameErr]. simpl in Hname. subst nameErr.
  unfold provision. rewrite Hfinalizer. simpl. rewrite bind_run. unfold outcall.
  fold svc'. destruct (clientUpdate svc' (outside st)) as [[svc2 err2] w].
  simpl in Hupdate. subst err2. done.
Qed.

(** X24: a reconcile of a settled egress Service changes nothing in the
    cluster. When a valid Service with a tailnet target address has the
    finalizer and already is an ExternalName Service for the headless
    Service of its proxy, [maybeProvision] calls [a.ssr.Provision] with
    that address as the only target and makes no Update. *)
Theorem maybeProvision_egress_settled (svc hsvc : Service) (st : state) :
  let sts := {| ParentResourceName := Name svc; ParentResourceUID := UID svc;
                STSHostname := fst (nameForService svc);
                Tags := match Annotations svc !! AnnotationTags with
                        | Some tstr => Strings.Split tstr ","%char
                        | None => []
                        end;
                ChildResourceLabels := childResourceLabels (Name svc) (Namespace svc) "svc";
                ProxyClass := "";
                ClusterTargetIP := ""; TailnetTargetIP := tailnetTargetAnnotation svc;
                TailnetTargetFQDN := "" |} in
  ssrValidate (outside st) = None →
  validateService svc = [] →
  proxyClassForObject svc = "" →
  snd (nameForService svc) = None →
  slicesContains (Finalizers svc) FinalizerName = true →
  shouldExpose isDefaultLoadBalancer svc = false →
  tailnetTargetAnnotation svc ≠ "" →
  fst (ssrProvision sts (outside st)) = (hsvc, None) →
  SpecExternalName svc = Name hsvc +:+ "." +:+ Namespace hsvc +:+ ".svc.cluster.local" →
  SpecType svc = ServiceTypeExternalName →
  fst (maybeProvision svc st) = (None, svc)
  ∧ calls (snd (maybeProvision svc st)) = calls st ++ [CallProvision sts]
  ∧ managedIngressProxies (snd (maybeProvision svc st)) = managedIngressProxies st
  ∧ managedEgressProxies (snd (maybeProvision svc st))
    = managedEgressProxies st ∪ {[UID svc]}.
Proof.
  intros sts Hvalid Hviolations Hclass Hname Hfinalizer Hexpose Htarget Hprovision
    Hexternal Htype.
  unfold operator.maybeProvision. rewrite Hvalid, Hviolations, Hclass. simpl.
  rewrite bind_run. simpl.
  destruct (nameForService svc) as [hostname nameErr] eqn:Hn. simpl in Hname. subst nameErr.
  unfold provision. rewrite Hfinalizer. simpl. rewrite bind_run. simpl.
  rewrite Hexpose.
  destruct (tailnetTargetAnnotation svc) as [|c ip] eqn:Hip; [done|]. simpl.
  rewrite !bind_run. unfold outcall. simpl.
  simpl in sts. fold sts.
  destruct (ssrProvision sts (outside st)) as [[hsvc' provErr] w].
  simpl in Hprovision. injection Hprovision as -> ->. simpl.
  unfold updateProvisioned. simpl.
  rewrite Hexternal, Htype, !String.eqb_refl. done.
Qed.

End Reconciler.

(** *** The reconciler on the small cluster *)

Import operator.Fake operatorRuns.

Lemma Reconcile_keeps_gauges_witness :
  gaugesInSync (Fake.start (Fake.withService Fake.deleted))
  ∧ gaugesInSync (snd (Reconcile false web (Fake.start (Fake.withService Fake.deleted)))).
Proof.
  assert (Hstart : gaugesInSync (Fake.start (Fake.withService Fake.deleted)))
    by (split; reflexivity).
  split; [exact Hstart|].
  exact (Reconcile_keeps_gauges false web _ Hstart).
Defined.

Lemma Reconcile_cleans_up_only_witness :
  fst (clientGet web (outside (Fake.start (Fake.withService Fake.deleted))))
    = inl Fake.deleted
  ∧ ∃ more,
      calls (snd (Reconcile false web (Fake.start (Fake.withService Fake.deleted))))
      = [] ++ CallGet web :: more
      ∧ Forall cleanupCall more
      ∧ managedIngressProxies
          (snd (Reconcile false web (Fake.start (Fake.withService Fake.deleted)))) ⊆ ∅
      ∧ managedEgressProxies
          (snd (Reconcile false web (Fake.start (Fake.withService Fake.deleted)))) ⊆ ∅.
Proof.
  split; [reflexivity|].
  exact (Reconcile_cleans_up_only false web (Fake.start (Fake.withService Fake.deleted))
           Fake.deleted eq_refl eq_refl).
Defined.

Lemma maybeProvision_invalid_service_witness :
  0 < length (validateService Fake.twoTargets)
  ∧ fst (maybeProvision false Fake.twoTargets (Fake.start Fake.emptyCluster))
    = (None, Fake.twoTargets)
  ∧ length (calls (snd (maybeProvision false Fake.twoTargets
                          (Fake.start Fake.emptyCluster)))) = 1.
Proof.
  assert (Hviolations : 0 < length (validateService Fake.twoTargets))
    by (vm_compute; lia).
  split; [exact Hviolations|].
  assert (Hvalid : ssrValidate (outside (Fake.start Fake.emptyCluster))
                   = (None : option (error Fake.apiError))) by reflexivity.
  destruct (maybeProvision_invalid_service false Fake.twoTargets
              (Fake.start Fake.emptyCluster) Hvalid Hviolations)
    as (Hresult & Hcalls & _).
  split; [exact Hresult|]. rewrite Hcalls. reflexivity.
Defined.

Lemma maybeProvision_proxy_class_witness :
  proxyClassForObject withProxyClass = "prod"
  ∧ fst (maybeProvision false withProxyClass (Fake.start (Fake.withService withProxyClass)))
    = (Some (Wrap "error verifying ProxyClass for Service: %w" []
               (Wrap "error getting ProxyClass %s: %w" ["prod"] (External Fake.NotFound))),
       withProxyClass)
  ∧ calls (snd (maybeProvision false withProxyClass
                  (Fake.start (Fake.withService withProxyClass))))
    = [CallGetProxyClass "prod"].
Proof.
  split; [reflexivity|].
  assert (Hclass : proxyClassForObject withProxyClass ≠ "")
    by (vm_compute; discriminate).
  exact (maybeProvision_proxy_class false withProxyClass
           (Fake.start (Fake.withService withProxyClass)) eq_refl eq_refl Hclass).
Defined.

Lemma maybeProvision_finalizer_first_witness :
  slicesContains (Finalizers exposed) FinalizerName = false
  ∧ fst (fst (maybeProvision false exposed (Fake.start downCluster)))
    = Some (Wrap "failed to add finalizer: %w" [] (External Fake.ServiceUnavailable))
  ∧ calls (snd (maybeProvision false exposed (Fake.start downCluster)))
    = [] ++ [CallUpdate (setFinalizers exposed [FinalizerName])]
  ∧ managedIngressProxies (snd (maybeProvision false exposed (Fake.start downCluster))) = ∅
  ∧ managedEgressProxies (snd (maybeProvision false exposed (Fake.start downCluster))) = ∅.
Proof.
  split; [reflexivity|].
  exact (maybeProvision_finalizer_first false exposed (Fake.start downCluster)
           (External Fake.ServiceUnavailable)
           eq_refl eq_refl eq_refl eq_refl eq_refl eq_refl).
Defined.

Lemma maybeProvision_egress_settled_witness :
  tailnetTargetAnnotation egress ≠ ""
  ∧ fst (maybeProvision false egress (Fake.start (Fake.withService egress))) = (None, egress)
  ∧ calls (snd (maybeProvision false egress (Fake.start (Fake.withService egress))))
    = [] ++ [CallProvision
               {| ParentResourceName := "db"; ParentResourceUID := "uid-4";
                  STSHostname := "default-db"; Tags := [];
                  ChildResourceLabels := childResourceLabels "db" "default" "svc";
                  ProxyClass := "";
                  ClusterTargetIP := ""; TailnetTargetIP := "100.64.0.9";
                  TailnetTargetFQDN := "" |}]
  ∧ managedIngressProxies
      (snd (maybeProvision false egress (Fake.start (Fake.withService egress)))) = ∅
  ∧ managedEgressProxies
      (snd (maybeProvision false egress (Fake.start (Fake.withService egress))))
    = ∅ ∪ {["uid-4"]}.
Proof.
  assert (Htarget : tailnetTargetAnnotation egress ≠ "") by (vm_compute; discriminate).
  split; [exact Htarget|].
  exact (maybeProvision_egress_settled false egress egressProxy
           (Fake.start (Fake.withService egress))
           eq_refl eq_refl eq_refl eq_refl eq_refl eq_refl Htarget eq_refl eq_refl eq_refl).
Defined.

End ReconcilerMore.

(** * The routes of a Connector *)

Module ConnectorProofs.
Import GoString v1alpha1.

Lemma append_assoc (a b c : string) : (a +:+ b) +:+ c = a +:+ (b +:+ c).
Proof.
  induction a as [|x a IH]; [done|].
  change ((String x a +:+ b) +:+ c) with (String x ((a +:+ b) +:+ c)).
  change (String x a +:+ (b +:+ c)) with (String x (a +:+ (b +:+ c))).
  by rewrite IH.
Qed.

Lemma Join_cons (e : string) (elems : list string) (sep : string) :
  elems ≠ [] → Strings.Join (e :: elems) sep = e +:+ sep +:+ Strings.Join elems sep.
Proof. by destruct elems. Qed.

Lemma writeRoutes_Join (routes : list string) (sb : string) :
  writeRoutes routes sb = Strings.Join (sb :: routes) ",".
Proof.
  revert sb. induction routes as [|r routes IH]; intros sb; [done|].
  simpl writeRoutes. rewrite IH.
  rewrite (Join_cons sb (r :: routes)) by done.
  destruct routes as [|r' routes]; [done|].
  rewrite !(Join_cons _ (r' :: routes)) by done.
  by rewrite !append_assoc.
Qed.

(** X25: [Routes.Stringify] is [strings.Join] of the routes with a comma:
    the routes in their order, a comma between two of them and none at
    either end. *)
Theorem RoutesStringify_is_Join (routes : list string) :
  RoutesStringify routes = Strings.Join routes ",".
Proof. destruct routes as [|r routes]; [done|]. apply writeRoutes_Join. Qed.

Lemma Split_Join (elems : list string) (sep : ascii) :
  elems ≠ [] → Forall (λ e, sep ∉ bytes e) elems →
  Strings.SplitByte (bytes (Strings.Join elems (String sep ""))) sep = map bytes elems.
Proof.
  induction elems as [|e elems IH]; [done|]. intros _ Hall.
  apply Forall_cons in Hall as [He Hall].
  destruct elems as [|e' elems]; [by apply CleanFormProofs.SplitByte_one|].
  rewrite Join_cons by done.
  rewrite OperatorMore.bytes_app.
  change (bytes (String sep "" +:+ ?x)) with (sep :: bytes x).
  rewrite CleanFormProofs.SplitByte_name by done.
  by rewrite IH.
Qed.

(** X26: splitting what [Routes.Stringify] returns at the commas gives the
    routes back, when there is a route and no route has a comma in it. *)
Theorem RoutesStringify_round_trip (routes : list string) :
  routes ≠ [] →
  Forall (λ r, ","%char ∉ bytes r) routes →
  Strings.Split (RoutesStringify routes) ","%char = routes.
Proof.
  intros Hne Hall.
  assert (RoutesStringify routes = Strings.Join routes ",") as ->
    by (destruct routes as [|r routes]; [done|apply writeRoutes_Join]).
  unfold Strings.Split. rewrite (Split_Join routes ","%char) by done.
  rewrite map_map. rewrite <- (map_id routes) at 2. apply map_ext.
  intros r. apply SharedProofs.of_bytes_bytes.
Qed.

Lemma RoutesStringify_round_trip_witness :
  RoutesStringify privateRoutes = "10.0.0.0/8,192.168.0.0/24"
  ∧ Strings.Split (RoutesStringify privateRoutes) ","%char = privateRoutes.
Proof.
  split; [reflexivity|].
  apply (RoutesStringify_round_trip privateRoutes); [done|].
  apply (bool_decide_unpack _). by vm_compute.
Defined.

End ConnectorProofs.
